(** * tsParticles, slim entry point ([src/index.slim.ts])

    A shallow embedding of the facade class [Main], of the module-level
    values built around its singleton ([tsParticles], [particlesJS],
    [pJSDom]) and of the two collaborators it drives, the capability
    registry [Plugins] and the container [Loader].

    JavaScript values are modelled as follows.
    - A function value is a [JSFunction]; two functions are [===] exactly
      when they are equal here.
    - An optional function ([init?: ...], or a window property that may be
      missing) is an [option JSFunction]; [None] is a read that yields
      [undefined].
    - An object is a location [loc] of the [heap]; two references are the
      same instance exactly when the locations are equal.
    - Code that may throw runs in the state-and-fault monad [M]. *)

From Stdlib Require Import QArith.QArith_base.
From stdpp Require Import gmap strings list fin_maps.

Close Scope Q_scope.

(** ** Values *)

(** Function values. [HostFn] is a function supplied by the browser or by
    the caller, known only by its identity.  The other two are the values
    the constructor of [Main] can create or name itself:
    [TimerFallback d] is the arrow function
    [(callback) => window.setTimeout(callback, d)] and [ClearTimeout] is the
    global [clearTimeout]. *)
Inductive JSFunction : Type :=
| HostFn (id : nat)
| TimerFallback (delay : Q)
| ClearTimeout.

(** Heap locations (object references). *)
Definition loc : Type := nat.

(** Opaque collaborators' values: a (partial) options object, a plugin and
    a container are known by a handle only. *)
Inductive Options : Type := OptionsRef (h : nat).
Inductive IPlugin : Type := PluginRef (h : nat).
Inductive Container : Type := ContainerRef (h : nat).

(** Faults a JavaScript evaluation can raise in the code modelled here. *)
Inductive JSError : Type :=
| ReferenceError (name : string)
| HostError (h : nat).

(** [IShapeDrawer]: a required [draw] and three optional hooks, with the
    fields in the order of the object literal of [Main.addShape]. *)
Module IShapeDrawer.
Record t : Type := Build {
  afterEffect : option JSFunction;
  draw : JSFunction;
  destroy : option JSFunction;
  init : option JSFunction;
}.
End IShapeDrawer.

(** The built-in drawer classes imported by the module. *)
Inductive DrawerClass : Type :=
| LineDrawer | CircleDrawer | SquareDrawer | TriangleDrawer
| StarDrawer | PolygonDrawer | TextDrawer | ImageDrawer.

(** What a heap location holds: an instance made by [new C()], an object
    literal with the four [IShapeDrawer] fields, or an array of
    containers. *)
Inductive object : Type :=
| Instance (c : DrawerClass)
| Literal (d : IShapeDrawer.t)
| ArrayOf (items : list Container).

(** The second parameter of [addShape], [IShapeDrawer | ShapeDrawerDrawFunction]:
    [typeof drawer === "function"] holds exactly for [DrawFunction]. *)
Inductive DrawerArg : Type :=
| DrawFunction (f : JSFunction)
| DrawerObject (r : loc).

(** ** The window object *)

(** The properties of [window] the constructor reads and writes.  The ten
    probed properties and the two [custom...] ones are [undefined] ([None])
    or a function. *)
Record Window : Type := mkWindow {
  requestAnimationFrame : option JSFunction;
  webkitRequestAnimationFrame : option JSFunction;
  mozRequestAnimationFrame : option JSFunction;
  oRequestAnimationFrame : option JSFunction;
  msRequestAnimationFrame : option JSFunction;
  cancelAnimationFrame : option JSFunction;
  webkitCancelRequestAnimationFrame : option JSFunction;
  mozCancelRequestAnimationFrame : option JSFunction;
  oCancelRequestAnimationFrame : option JSFunction;
  msCancelRequestAnimationFrame : option JSFunction;
  customRequestAnimationFrame : option JSFunction;
  customCancelRequestAnimationFrame : option JSFunction;
}.

Definition set_customRequestAnimationFrame (v : option JSFunction) (win : Window) : Window :=
  mkWindow (requestAnimationFrame win) (webkitRequestAnimationFrame win)
    (mozRequestAnimationFrame win) (oRequestAnimationFrame win)
    (msRequestAnimationFrame win) (cancelAnimationFrame win)
    (webkitCancelRequestAnimationFrame win) (mozCancelRequestAnimationFrame win)
    (oCancelRequestAnimationFrame win) (msCancelRequestAnimationFrame win)
    v (customCancelRequestAnimationFrame win).

Definition set_customCancelRequestAnimationFrame (v : option JSFunction) (win : Window) : Window :=
  mkWindow (requestAnimationFrame win) (webkitRequestAnimationFrame win)
    (mozRequestAnimationFrame win) (oRequestAnimationFrame win)
    (msRequestAnimationFrame win) (cancelAnimationFrame win)
    (webkitCancelRequestAnimationFrame win) (mozCancelRequestAnimationFrame win)
    (oCancelRequestAnimationFrame win) (msCancelRequestAnimationFrame win)
    (customRequestAnimationFrame win) v.

(** ** Process state *)

(** Everything the module can observe or change.  [window] is [None] when
    the guard [typeof window !== "undefined" && window] fails.  [drawers],
    [presets] and [plugins] are the module state of [Plugins];
    [tsParticlesDom] and [clickHandler] are the module state of [Loader]. *)
Record World : Type := mkWorld {
  window : option Window;
  heap : gmap loc object;
  drawers : gmap string loc;
  presets : gmap string Options;
  plugins : list IPlugin;
  tsParticlesDom : list Container;
  clickHandler : option JSFunction;
}.

Definition set_window (v : option Window) (w : World) : World :=
  mkWorld v (heap w) (drawers w) (presets w) (plugins w) (tsParticlesDom w) (clickHandler w).
Definition set_heap (v : gmap loc object) (w : World) : World :=
  mkWorld (window w) v (drawers w) (presets w) (plugins w) (tsParticlesDom w) (clickHandler w).
Definition set_drawers (v : gmap string loc) (w : World) : World :=
  mkWorld (window w) (heap w) v (presets w) (plugins w) (tsParticlesDom w) (clickHandler w).
Definition set_presets (v : gmap string Options) (w : World) : World :=
  mkWorld (window w) (heap w) (drawers w) v (plugins w) (tsParticlesDom w) (clickHandler w).
Definition set_plugins (v : list IPlugin) (w : World) : World :=
  mkWorld (window w) (heap w) (drawers w) (presets w) v (tsParticlesDom w) (clickHandler w).
Definition set_tsParticlesDom (v : list Container) (w : World) : World :=
  mkWorld (window w) (heap w) (drawers w) (presets w) (plugins w) v (clickHandler w).
Definition set_clickHandler (v : option JSFunction) (w : World) : World :=
  mkWorld (window w) (heap w) (drawers w) (presets w) (plugins w) (tsParticlesDom w) v.

(** A world in which nothing has run yet: no object, empty registries, no
    tracked container. *)
Definition pristine (win : option Window) : World :=
  mkWorld win ∅ ∅ ∅ [] [] None.

(** ** The state-and-fault monad *)

(** A computation ends with a value or with a fault; either way the world
    it leaves is the one reached so far (a [throw] undoes nothing). *)
Inductive result (A : Type) : Type :=
| Ok (a : A) (w : World)
| Fault (e : JSError) (w : World).
Arguments Ok {A} a w.
Arguments Fault {A} e w.

Definition M (A : Type) : Type := World → result A.

#[export] Instance M_ret : MRet M := λ A a w, Ok a w.
#[export] Instance M_bind : MBind M := λ A B k m w,
  match m w with
  | Ok a w' => k a w'
  | Fault e w' => Fault e w'
  end.

Definition get : M World := λ w, Ok w w.
Definition modify (f : World → World) : M unit := λ w, Ok tt (f w).
Definition throw {A} (e : JSError) : M A := λ w, Fault e w.

(** [new C()] and object literals: a fresh location is chosen and the
    object stored there. *)
Definition alloc (o : object) : M loc := λ w,
  let r := fresh (dom (heap w)) in
  Ok r (set_heap (<[r := o]> (heap w)) w).

(** Reading the global [window]: a fault when there is none. *)
Definition read_window : M Window :=
  w ← get;
  match window w with
  | Some win => mret win
  | None => throw (ReferenceError "window")
  end.

Definition write_window (f : Window → Window) : M unit :=
  win ← read_window;
  modify (set_window (Some (f win))).

(** [a || b] on values that are [undefined] or a function: a function is
    truthy, [undefined] is not. *)
Definition js_or {A} (a b : option A) : option A :=
  match a with
  | Some _ => a
  | None => b
  end.
Infix "|||" := js_or (at level 50, left associativity).

(** ** Promises *)

(** The state a promise ends in; [Pending] is a promise that never
    settles. *)
Inductive Promise (A : Type) : Type :=
| Fulfilled (a : A)
| Rejected (e : JSError)
| Pending.
Arguments Fulfilled {A} a.
Arguments Rejected {A} e.
Arguments Pending {A}.

(** An [async] method: a fault raised by its body rejects the promise it
    returns, and the promise it returns otherwise adopts the state of the
    promise the body returns. *)
Definition async {A} (body : M (Promise A)) : M (Promise A) := λ w,
  match body w with
  | Ok p w' => Ok p w'
  | Fault e w' => Ok (Rejected e) w'
  end.

(** [p.then(onFulfilled)], keeping the effects the reaction emits: the
    reaction runs only for a fulfilled promise. *)
Definition then_ {A E} (p : Promise A) (onFulfilled : A → list E) : list E :=
  match p with
  | Fulfilled a => onFulfilled a
  | Rejected _ => []
  | Pending => []
  end.

(** A callback invocation [callback(container)]. *)
Inductive Invocation : Type :=
| Invoke (callback : JSFunction) (container : Container).

(** ** [ShapeType] *)

(** Modelled from the spec: the enum [ShapeType] ([./Enums/ShapeType]) is
    imported but not part of the sources.  The spec names the keys [edge],
    [square], [char], [character], [image] and [images]; every member is
    taken to be the string of its own name. *)
Module ShapeType.
Definition line : string := "line".
Definition circle : string := "circle".
Definition edge : string := "edge".
Definition square : string := "square".
Definition triangle : string := "triangle".
Definition star : string := "star".
Definition polygon : string := "polygon".
Definition char : string := "char".
Definition character : string := "character".
Definition image : string := "image".
Definition images : string := "images".
End ShapeType.

(** ** [Plugins], the capability registry *)

Module Plugins.

(** Modelled from the spec: [Plugins.addShapeDrawer] ([./Utils/Plugins])
    is the spec's [register(key, bundle)], which stores the bundle under
    the key, overwriting any prior association for that exact key, and
    always succeeds. *)
Definition addShapeDrawer (type : string) (drawer : loc) : M unit :=
  modify (λ w, set_drawers (<[type := drawer]> (drawers w)) w).

(** Modelled from the spec: [resolve(key)], a pure lookup whose miss is
    an ordinary absent result. *)
Definition resolve (key : string) (w : World) : option loc :=
  drawers w !! key.

(** Modelled from the spec: [registerAlias(keys, bundle)] binds one
    bundle instance to each of the keys. *)
Fixpoint registerAlias (keys : list string) (bundle : loc) : M unit :=
  match keys with
  | [] => mret tt
  | k :: keys' => addShapeDrawer k bundle;; registerAlias keys' bundle
  end.

(** Modelled from the spec: [Plugins.addPreset] registers an opaque
    partial configuration under the preset name. *)
Definition addPreset (presetKey : string) (options : Options) : M unit :=
  modify (λ w, set_presets (<[presetKey := options]> (presets w)) w).

(** Modelled from the spec: [Plugins.addPlugin]; plugins are appended to
    an ordered collection and are not keyed by name. *)
Definition addPlugin (plugin : IPlugin) : M unit :=
  modify (λ w, set_plugins (plugins w ++ [plugin]) w).

End Plugins.

(** ** [Loader] *)

(** The static methods of [Loader] that [Main] forwards to.  The class
    ([./Core/Loader]) is not part of the sources, so the facade is written
    against this interface. *)
Class LoaderOps : Type := {
  Loader_loadFromArray : string → list Options → option Z → M (Promise (option Container));
  Loader_load : string → Options → M (Promise (option Container));
  Loader_loadJSON : string → string → M (Promise (option Container));
  Loader_setOnClickHandler : JSFunction → M unit;
  Loader_dom : M loc;
  Loader_domItem : Z → M (option Container);
}.

(** What the network answers to a GET. *)
Inductive FetchOutcome : Type :=
| Response (body : string)
| NetworkFailure
| NoAnswer.

(** Modelled from the spec: the [Loader] of section 4.3.  The external
    collaborators are parameters: [fetch] is the network, [parse] turns a
    response body into a configuration, [construct] builds the container
    (and fails with an absent result), [pick] is the selection policy of
    [loadFromArray] and [destroyed] tells whether a container was
    destroyed. *)
Section SpecLoader.

Variable fetch : string → FetchOutcome.
Variable parse : string → option Options.
Variable construct : string → Options → World → option Container.
Variable pick : list Options → Options.
Variable destroyed : Container → bool.

(** Modelled from the spec: [load] appends the handle it built to the
    tracked collection and resolves with it, or resolves with an absent
    result when construction fails. *)
Definition spec_load (tagId : string) (params : Options) : M (Promise (option Container)) :=
  w ← get;
  match construct tagId params w with
  | Some c =>
      modify (set_tsParticlesDom (tsParticlesDom w ++ [c]));;
      mret (Fulfilled (Some c))
  | None => mret (Fulfilled None)
  end.

(** Modelled from the spec: [loadFromArray] takes the element at [index]
    when one is given and in range, and otherwise the element the
    selection policy chooses, and goes on as [load]. *)
Definition spec_loadFromArray (tagId : string) (params : list Options)
    (index : option Z) : M (Promise (option Container)) :=
  let chosen :=
    match index with
    | Some i =>
        if bool_decide (0 ≤ i < Z.of_nat (length params))%Z
        then default (pick params) (params !! Z.to_nat i)
        else pick params
    | None => pick params
    end in
  spec_load tagId chosen.

(** Modelled from the spec: [loadJSON] issues a GET, parses the body and
    forwards to [load]; a network or parse failure resolves the promise
    with an absent result. *)
Definition spec_loadJSON (tagId : string) (jsonUrl : string) : M (Promise (option Container)) :=
  match fetch jsonUrl with
  | Response body =>
      match parse body with
      | Some params => spec_load tagId params
      | None => mret (Fulfilled None)
      end
  | NetworkFailure => mret (Fulfilled None)
  | NoAnswer => mret Pending
  end.

(** Modelled from the spec: [setOnClickHandler] registers the single
    global click handler, replacing any prior one. *)
Definition spec_setOnClickHandler (callback : JSFunction) : M unit :=
  modify (set_clickHandler (Some callback)).

(** Modelled from the spec: [dom] returns the tracked collection in load
    order as a point-in-time copy, not a live collection. *)
Definition spec_dom : M loc :=
  w ← get;
  alloc (ArrayOf (tsParticlesDom w)).

(** Modelled from the spec: [domItem] returns the handle at [index] if
    present and not flagged destroyed, else an absent result. *)
Definition spec_domItem (index : Z) : M (option Container) :=
  w ← get;
  mret (if bool_decide (0 ≤ index)%Z
        then match tsParticlesDom w !! Z.to_nat index with
             | Some c => if destroyed c then None else Some c
             | None => None
             end
        else None).

Definition SpecLoader : LoaderOps := {|
  Loader_loadFromArray := spec_loadFromArray;
  Loader_load := spec_load;
  Loader_loadJSON := spec_loadJSON;
  Loader_setOnClickHandler := spec_setOnClickHandler;
  Loader_dom := spec_dom;
  Loader_domItem := spec_domItem;
|}.

End SpecLoader.

(** ** The class [Main] *)

Module Main.

(** The instance state: the private field [initialized]. *)
Record t : Type := Build { initialized : bool }.

(** The delay of the timer fallback, [1000 / 60] milliseconds. *)
Definition frameDelay : Q := (1000 / 60)%Q.

(** The body of the first immediately-invoked arrow function of the
    constructor: the [||] chain over the frame-request primitives. *)
Definition resolveRequestAnimationFrame : M (option JSFunction) :=
  win ← read_window;
  mret (requestAnimationFrame win |||
        webkitRequestAnimationFrame win |||
        mozRequestAnimationFrame win |||
        oRequestAnimationFrame win |||
        msRequestAnimationFrame win |||
        Some (TimerFallback frameDelay)).

(** The body of the second one: the [||] chain over the cancellation
    primitives, ending in the global [clearTimeout]. *)
Definition resolveCancelRequestAnimationFrame : M (option JSFunction) :=
  win ← read_window;
  mret (cancelAnimationFrame win |||
        webkitCancelRequestAnimationFrame win |||
        mozCancelRequestAnimationFrame win |||
        oCancelRequestAnimationFrame win |||
        msCancelRequestAnimationFrame win |||
        Some ClearTimeout).

(** Lines 50-68: the block guarded by
    [typeof window !== "undefined" && window]. *)
Definition installScheduler : M unit :=
  w ← get;
  match window w with
  | Some _ =>
      request ← resolveRequestAnimationFrame;
      write_window (set_customRequestAnimationFrame request);;
      cancel ← resolveCancelRequestAnimationFrame;
      write_window (set_customCancelRequestAnimationFrame cancel)
  | None => mret tt
  end.

(** Lines 70-84: the built-in drawers, three of them bound to two keys
    each. *)
Definition seedShapeDrawers : M unit :=
  squareDrawer ← alloc (Instance SquareDrawer);
  textDrawer ← alloc (Instance TextDrawer);
  imageDrawer ← alloc (Instance ImageDrawer);
  lineDrawer ← alloc (Instance LineDrawer);
  Plugins.addShapeDrawer ShapeType.line lineDrawer;;
  circleDrawer ← alloc (Instance CircleDrawer);
  Plugins.addShapeDrawer ShapeType.circle circleDrawer;;
  Plugins.addShapeDrawer ShapeType.edge squareDrawer;;
  Plugins.addShapeDrawer ShapeType.square squareDrawer;;
  triangleDrawer ← alloc (Instance TriangleDrawer);
  Plugins.addShapeDrawer ShapeType.triangle triangleDrawer;;
  starDrawer ← alloc (Instance StarDrawer);
  Plugins.addShapeDrawer ShapeType.star starDrawer;;
  polygonDrawer ← alloc (Instance PolygonDrawer);
  Plugins.addShapeDrawer ShapeType.polygon polygonDrawer;;
  Plugins.addShapeDrawer ShapeType.char textDrawer;;
  Plugins.addShapeDrawer ShapeType.character textDrawer;;
  Plugins.addShapeDrawer ShapeType.image imageDrawer;;
  Plugins.addShapeDrawer ShapeType.images imageDrawer.

(** [constructor()]. *)
Definition new : M t :=
  let this := {| initialized := false |} in
  installScheduler;;
  seedShapeDrawers;;
  mret this.

(** [init()]. *)
Definition init (this : t) : M t :=
  if negb (initialized this)
  then mret {| initialized := true |}
  else mret this.

Section Forwarding.
Context `{LoaderOps}.

(** [loadFromArray], [load]: [async] methods forwarding to [Loader]. *)
Definition loadFromArray (tagId : string) (params : list Options)
    (index : option Z) : M (Promise (option Container)) :=
  async (Loader_loadFromArray tagId params index).

Definition load (tagId : string) (params : Options) : M (Promise (option Container)) :=
  async (Loader_load tagId params).

(** [loadJSON]: not [async]; the promise of [Loader.loadJSON] is
    returned as it is. *)
Definition loadJSON (tagId : string) (pathConfigJson : string) : M (Promise (option Container)) :=
  Loader_loadJSON tagId pathConfigJson.

Definition setOnClickHandler (callback : JSFunction) : M unit :=
  Loader_setOnClickHandler callback.

Definition dom : M loc := Loader_dom.

Definition domItem (index : Z) : M (option Container) := Loader_domItem index.
End Forwarding.

(** [addShape(shape, drawer, init?, afterEffect?, destroy?)]. *)
Definition addShape (shape : string) (drawer : DrawerArg)
    (init afterEffect destroy : option JSFunction) : M unit :=
  customDrawer ←
    match drawer with
    | DrawFunction f =>
        alloc (Literal {| IShapeDrawer.afterEffect := afterEffect;
                          IShapeDrawer.draw := f;
                          IShapeDrawer.destroy := destroy;
                          IShapeDrawer.init := init |})
    | DrawerObject r => mret r
    end;
  Plugins.addShapeDrawer shape customDrawer.

Definition addPreset (preset : string) (options : Options) : M unit :=
  Plugins.addPreset preset options.

Definition addPlugin (plugin : IPlugin) : M unit :=
  Plugins.addPlugin plugin.

End Main.

(** ** Module-level values *)

Section ModuleLevel.
Context `{LoaderOps}.

(** [particlesJS(tagId, params)]. *)
Definition particlesJS (tagId : string) (params : Options) : M (Promise (option Container)) :=
  Main.load tagId params.

(** The reaction [particlesJS.load] passes to [then]:
    [(container) => { if (container) { callback(container); } }]. *)
Definition onLoaded (callback : JSFunction) (container : option Container) : list Invocation :=
  match container with
  | Some c => [Invoke callback c]
  | None => []
  end.

(** [particlesJS.load(tagId, pathConfigJson, callback)]; the value is the
    list of invocations of [callback] the call leads to. *)
Definition particlesJS_load (tagId pathConfigJson : string) (callback : JSFunction)
    : M (list Invocation) :=
  p ← Main.loadJSON tagId pathConfigJson;
  mret (then_ p (onLoaded callback)).

(** [particlesJS.setOnClickHandler(callback)]. *)
Definition particlesJS_setOnClickHandler (callback : JSFunction) : M unit :=
  Main.setOnClickHandler callback.

(** The values the module exports once it has been evaluated:
    [const tsParticles = new Main()] and [const pJSDom = tsParticles.dom()]. *)
Record Exports : Type := mkExports { tsParticles : Main.t; pJSDom : loc }.

Definition moduleInit : M Exports :=
  tsParticles ← Main.new;
  pJSDom ← Main.dom;
  mret {| tsParticles := tsParticles; pJSDom := pJSDom |}.

(** A use of the exported interface after the module was evaluated. *)
Inductive Call : Type :=
| CallInit
| CallLoadFromArray (tagId : string) (params : list Options) (index : option Z)
| CallLoad (tagId : string) (params : Options)
| CallLoadJSON (tagId pathConfigJson : string)
| CallSetOnClickHandler (callback : JSFunction)
| CallDom
| CallDomItem (index : Z)
| CallAddShape (shape : string) (drawer : DrawerArg) (init afterEffect destroy : option JSFunction)
| CallAddPreset (preset : string) (options : Options)
| CallAddPlugin (plugin : IPlugin)
| CallParticlesJS (tagId : string) (params : Options)
| CallParticlesJSLoad (tagId pathConfigJson : string) (callback : JSFunction)
| CallParticlesJSSetOnClickHandler (callback : JSFunction).

Definition perform (c : Call) (this : Main.t) : M Main.t :=
  match c with
  | CallInit => Main.init this
  | CallLoadFromArray tagId params index => Main.loadFromArray tagId params index;; mret this
  | CallLoad tagId params => Main.load tagId params;; mret this
  | CallLoadJSON tagId path => Main.loadJSON tagId path;; mret this
  | CallSetOnClickHandler callback => Main.setOnClickHandler callback;; mret this
  | CallDom => Main.dom;; mret this
  | CallDomItem index => Main.domItem index;; mret this
  | CallAddShape shape drawer init afterEffect destroy =>
      Main.addShape shape drawer init afterEffect destroy;; mret this
  | CallAddPreset preset options => Main.addPreset preset options;; mret this
  | CallAddPlugin plugin => Main.addPlugin plugin;; mret this
  | CallParticlesJS tagId params => particlesJS tagId params;; mret this
  | CallParticlesJSLoad tagId path callback => particlesJS_load tagId path callback;; mret this
  | CallParticlesJSSetOnClickHandler callback => particlesJS_setOnClickHandler callback;; mret this
  end.

Fixpoint performAll (cs : list Call) (this : Main.t) : M Main.t :=
  match cs with
  | [] => mret this
  | c :: cs' => this' ← perform c this; performAll cs' this'
  end.

End ModuleLevel.

(** [init()] called [n] times in a row. *)
Fixpoint initTimes (n : nat) (this : Main.t) : M Main.t :=
  match n with
  | O => mret this
  | S n' => this' ← Main.init this; initTimes n' this'
  end.

(** ** Vocabulary of the statements *)

(** The world a computation leaves, whether it ended with a value or with
    a fault. *)
Definition world_of {A} (r : result A) : World :=
  match r with
  | Ok _ w => w
  | Fault _ w => w
  end.

(** The bundle an object literal holds. *)
Definition bundle_at (r : loc) (w : World) : option IShapeDrawer.t :=
  match heap w !! r with
  | Some (Literal d) => Some d
  | _ => None
  end.

(** The candidate primitives, in the order the constructor probes them. *)
Definition requestCandidates (win : Window) : list (option JSFunction) :=
  [ requestAnimationFrame win;
    webkitRequestAnimationFrame win;
    mozRequestAnimationFrame win;
    oRequestAnimationFrame win;
    msRequestAnimationFrame win ].

Definition cancelCandidates (win : Window) : list (option JSFunction) :=
  [ cancelAnimationFrame win;
    webkitCancelRequestAnimationFrame win;
    mozCancelRequestAnimationFrame win;
    oCancelRequestAnimationFrame win;
    msCancelRequestAnimationFrame win ].

(** The spec's selection rule: the first available candidate of an ordered
    list, and the given fallback when none is available. *)
Fixpoint firstAvailable (candidates : list (option JSFunction)) (fallback : JSFunction) : JSFunction :=
  match candidates with
  | [] => fallback
  | Some f :: _ => f
  | None :: rest => firstAvailable rest fallback
  end.

(** What calling a function value with one argument asks of the host. *)
Inductive HostCall (A : Type) : Type :=
| CallHostFn (id : nat) (arg : A)
| CallSetTimeout (handler : A) (timeout : Q)
| CallClearTimeout (arg : A).
Arguments CallHostFn {A} id arg.
Arguments CallSetTimeout {A} handler timeout.
Arguments CallClearTimeout {A} arg.

Definition apply1 {A} (f : JSFunction) (arg : A) : HostCall A :=
  match f with
  | HostFn id => CallHostFn id arg
  | TimerFallback delay => CallSetTimeout arg delay
  | ClearTimeout => CallClearTimeout arg
  end.

(** The built-in keys with the class of the drawer bound to each. *)
Definition builtins : list (string * DrawerClass) :=
  [ (ShapeType.line, LineDrawer); (ShapeType.circle, CircleDrawer);
    (ShapeType.edge, SquareDrawer); (ShapeType.square, SquareDrawer);
    (ShapeType.triangle, TriangleDrawer); (ShapeType.star, StarDrawer);
    (ShapeType.polygon, PolygonDrawer); (ShapeType.char, TextDrawer);
    (ShapeType.character, TextDrawer); (ShapeType.image, ImageDrawer);
    (ShapeType.images, ImageDrawer) ].

(** Every built-in key resolves to an instance of its class. *)
Definition builtinsSeeded (w : World) : Prop :=
  Forall (λ kc, ∃ r, Plugins.resolve kc.1 w = Some r ∧ heap w !! r = Some (Instance kc.2))
         builtins.

(** The heap and the registry the constructor leaves, given the eight
    locations of the instances it creates. *)
Definition builtinHeap (sq tx im ln ci tr st po : loc) (h : gmap loc object) : gmap loc object :=
  <[po := Instance PolygonDrawer]> (<[st := Instance StarDrawer]>
  (<[tr := Instance TriangleDrawer]> (<[ci := Instance CircleDrawer]>
  (<[ln := Instance LineDrawer]> (<[im := Instance ImageDrawer]>
  (<[tx := Instance TextDrawer]> (<[sq := Instance SquareDrawer]> h))))))).

Definition builtinDrawers (sq tx im ln ci tr st po : loc) (d : gmap string loc) : gmap string loc :=
  <[ShapeType.images := im]> (<[ShapeType.image := im]>
  (<[ShapeType.character := tx]> (<[ShapeType.char := tx]>
  (<[ShapeType.polygon := po]> (<[ShapeType.star := st]>
  (<[ShapeType.triangle := tr]> (<[ShapeType.square := sq]>
  (<[ShapeType.edge := sq]> (<[ShapeType.circle := ci]>
  (<[ShapeType.line := ln]> d)))))))))).

(** The window the guarded block of the constructor leaves. *)
Definition scheduledWindow (win : Window) : Window :=
  set_customCancelRequestAnimationFrame
    (Some (firstAvailable (cancelCandidates win) ClearTimeout))
    (set_customRequestAnimationFrame
       (Some (firstAvailable (requestCandidates win) (TimerFallback Main.frameDelay)))
       win).

(** A [Loader] none of whose methods touches [window]. *)
Definition LoaderKeepsWindow (L : LoaderOps) : Prop :=
  (∀ tagId params index w,
     window (world_of (Loader_loadFromArray tagId params index w)) = window w) ∧
  (∀ tagId params w, window (world_of (Loader_load tagId params w)) = window w) ∧
  (∀ tagId path w, window (world_of (Loader_loadJSON tagId path w)) = window w) ∧
  (∀ callback w, window (world_of (Loader_setOnClickHandler callback w)) = window w) ∧
  (∀ w, window (world_of (Loader_dom w)) = window w) ∧
  (∀ index w, window (world_of (Loader_domItem index w)) = window w).

(** ** Concrete inputs *)

(** A browser that offers only the [moz] request primitive and only the
    [ms] cancellation primitive. *)
Definition mozWindow : Window :=
  mkWindow None None (Some (HostFn 3)) None None
           None None None None (Some (HostFn 10))
           None None.

(** A browser without any of the probed primitives. *)
Definition bareWindow : Window :=
  mkWindow None None None None None None None None None None None None.

(** A network that serves one readable configuration, and a constructor
    that builds a container for the element [particles] only. *)
Definition demoFetch (path : string) : FetchOutcome :=
  if String.eqb path "particles.json" then Response "{}"
  else if String.eqb path "broken.json" then Response "{"
  else NetworkFailure.
Definition demoParse (body : string) : option Options :=
  if String.eqb body "{}" then Some (OptionsRef 0) else None.
Definition demoConstruct (tagId : string) (params : Options) (w : World) : option Container :=
  if String.eqb tagId "particles"
  then Some (ContainerRef (length (tsParticlesDom w)))
  else None.
Definition demoPick (params : list Options) : Options :=
  default (OptionsRef 0) (head params).
Definition demoDestroyed (c : Container) : bool := false.

Definition demoLoader : LoaderOps :=
  SpecLoader demoFetch demoParse demoConstruct demoPick demoDestroyed.

(** ** Further vocabulary and inputs *)

(** The call [init()]. *)
Definition isInit (c : Call) : bool :=
  match c with
  | CallInit => true
  | _ => false
  end.


(** A [Loader] every method of which throws at once. *)
Definition throwingLoader : LoaderOps := {|
  Loader_loadFromArray := λ _ _ _, throw (HostError 1);
  Loader_load := λ _ _, throw (HostError 2);
  Loader_loadJSON := λ _ _, throw (HostError 3);
  Loader_setOnClickHandler := λ _, throw (HostError 4);
  Loader_dom := throw (HostError 5);
  Loader_domItem := λ _, throw (HostError 6);
|}.

(** A browser with the native request primitive and no cancellation
    primitive, and one with the native cancellation primitive and no
    request primitive. *)
Definition requestOnlyWindow : Window :=
  mkWindow (Some (HostFn 1)) None None None None
           None None None None None
           None None.

Definition cancelOnlyWindow : Window :=
  mkWindow None None None None None
           (Some (HostFn 2)) None None None None
           None None.


(** * Properties *)

(** ** Running computations *)

Lemma bind_ok {A B} (m : M A) (k : A → M B) w a w' :
  m w = Ok a w' → (m ≫= k) w = k a w'.
Proof. intros E. unfold mbind, M_bind. by rewrite E. Qed.

Lemma bind_fault {A B} (m : M A) (k : A → M B) w e w' :
  m w = Fault e w' → (m ≫= k) w = Fault e w'.
Proof. intros E. unfold mbind, M_bind. by rewrite E. Qed.

Lemma alloc_spec o w :
  ∃ r, heap w !! r = None ∧ alloc o w = Ok r (set_heap (<[r := o]> (heap w)) w).
Proof.
  exists (fresh (dom (heap w))). split; [|done].
  apply not_elem_of_dom, is_fresh.
Qed.

Ltac world_simpl :=
  cbv [heap drawers window presets plugins tsParticlesDom clickHandler
       set_heap set_drawers set_window set_presets set_plugins
       set_tsParticlesDom set_clickHandler].

Ltac world_simpl_in H :=
  cbv [heap drawers window presets plugins tsParticlesDom clickHandler
       set_heap set_drawers set_window set_presets set_plugins
       set_tsParticlesDom set_clickHandler] in H.

(** One [alloc] of the computation in [R] is run; [r] names the new
    location and [H] records that it was free. *)
Ltac step_alloc R r H :=
  match type of R with
  | _ = (alloc ?o ≫= _) ?w =>
      let E := fresh "E" in
      destruct (alloc_spec o w) as (r & H & E);
      rewrite (bind_ok _ _ _ _ _ E) in R; clear E;
      world_simpl_in R; world_simpl_in H
  end.

Ltac step_register R :=
  match type of R with
  | _ = (Plugins.addShapeDrawer ?k ?r ≫= _) ?w =>
      rewrite (bind_ok (Plugins.addShapeDrawer k r) _ w tt _ eq_refl) in R;
      world_simpl_in R
  end.

(** ** The constructor *)

Lemma js_or_firstAvailable (a b c d e : option JSFunction) (f : JSFunction) :
  a ||| b ||| c ||| d ||| e ||| Some f = Some (firstAvailable [a; b; c; d; e] f).
Proof. by destruct a, b, c, d, e. Qed.

Lemma installScheduler_spec w :
  Main.installScheduler w = Ok tt (set_window (scheduledWindow <$> window w) w).
Proof.
  destruct w as [[win|] h d p pl dm ch]; [|done].
  unfold Main.installScheduler, Main.resolveRequestAnimationFrame,
    Main.resolveCancelRequestAnimationFrame, write_window, read_window.
  cbv [mbind M_bind mret M_ret get modify window set_window heap drawers
       presets plugins tsParticlesDom clickHandler fmap option_fmap option_map].
  rewrite !js_or_firstAvailable. reflexivity.
Qed.

Lemma seedShapeDrawers_spec w :
  ∃ sq tx im ln ci tr st po : loc,
    NoDup [sq; tx; im; ln; ci; tr; st; po] ∧
    Forall (λ r, heap w !! r = None) [sq; tx; im; ln; ci; tr; st; po] ∧
    Main.seedShapeDrawers w =
      Ok tt (set_drawers (builtinDrawers sq tx im ln ci tr st po (drawers w))
              (set_heap (builtinHeap sq tx im ln ci tr st po (heap w)) w)).
Proof.
  destruct w as [win h d p pl dm ch].
  remember (Main.seedShapeDrawers _) as R eqn:ER.
  unfold Main.seedShapeDrawers in ER. world_simpl.
  step_alloc ER sq Hsq. step_alloc ER tx Htx. step_alloc ER im Him.
  step_alloc ER ln Hln. step_register ER. step_alloc ER ci Hci.
  do 3 step_register ER. step_alloc ER tr Htr. step_register ER.
  step_alloc ER st Hst. step_register ER. step_alloc ER po Hpo.
  do 4 step_register ER.
  unfold Plugins.addShapeDrawer, modify in ER. world_simpl_in ER.
  exists sq, tx, im, ln, ci, tr, st, po.
  repeat match goal with
  | H : <[_ := _]> _ !! _ = None |- _ => apply lookup_insert_None in H as [H ?]
  end.
  split; [|split].
  - repeat (apply NoDup_cons; split;
            [rewrite ?elem_of_cons, elem_of_nil; intuition congruence|]).
    apply NoDup_nil_2.
  - repeat (apply Forall_cons; split; [done|]). apply Forall_nil_2.
  - subst R. reflexivity.
Qed.

Lemma new_spec w :
  ∃ sq tx im ln ci tr st po : loc,
    NoDup [sq; tx; im; ln; ci; tr; st; po] ∧
    Forall (λ r, heap w !! r = None) [sq; tx; im; ln; ci; tr; st; po] ∧
    Main.new w =
      Ok (Main.Build false)
         (set_drawers (builtinDrawers sq tx im ln ci tr st po (drawers w))
           (set_heap (builtinHeap sq tx im ln ci tr st po (heap w))
             (set_window (scheduledWindow <$> window w) w))).
Proof.
  unfold Main.new.
  rewrite (bind_ok _ _ _ _ _ (installScheduler_spec w)).
  destruct (seedShapeDrawers_spec (set_window (scheduledWindow <$> window w) w))
    as (sq & tx & im & ln & ci & tr & st & po & Hnd & Hfresh & E).
  exists sq, tx, im, ln, ci, tr, st, po.
  split; [done|]. split; [by destruct w|].
  by rewrite (bind_ok _ _ _ _ _ E).
Qed.

(** The heap of the constructor keeps every object that was there. *)
Lemma builtinHeap_lookup_old sq tx im ln ci tr st po (h : gmap loc object) r o :
  Forall (λ r, h !! r = None) [sq; tx; im; ln; ci; tr; st; po] →
  h !! r = Some o →
  builtinHeap sq tx im ln ci tr st po h !! r = Some o.
Proof.
  intros Hfresh Hr. unfold builtinHeap.
  repeat (apply Forall_cons in Hfresh as [? Hfresh]).
  rewrite !lookup_insert_ne by congruence. done.
Qed.

(** Each of the eight instances is found at its own location. *)
Lemma builtinHeap_lookup_new sq tx im ln ci tr st po (h : gmap loc object) :
  NoDup [sq; tx; im; ln; ci; tr; st; po] →
  let h' := builtinHeap sq tx im ln ci tr st po h in
  h' !! sq = Some (Instance SquareDrawer) ∧ h' !! tx = Some (Instance TextDrawer) ∧
  h' !! im = Some (Instance ImageDrawer) ∧ h' !! ln = Some (Instance LineDrawer) ∧
  h' !! ci = Some (Instance CircleDrawer) ∧ h' !! tr = Some (Instance TriangleDrawer) ∧
  h' !! st = Some (Instance StarDrawer) ∧ h' !! po = Some (Instance PolygonDrawer).
Proof.
  intros Hnd. unfold builtinHeap.
  repeat (let Hx := fresh "Hx" in
          apply NoDup_cons in Hnd as [Hx Hnd];
          rewrite ?not_elem_of_cons in Hx; destruct_and? Hx).
  cbv zeta. repeat split;
    repeat (first [ apply lookup_insert_eq | rewrite lookup_insert_ne by congruence ]).
Qed.

(** Each built-in key is bound to the instance of its class. *)
Lemma builtinDrawers_lookup sq tx im ln ci tr st po (d : gmap string loc) :
  let d' := builtinDrawers sq tx im ln ci tr st po d in
  d' !! ShapeType.line = Some ln ∧ d' !! ShapeType.circle = Some ci ∧
  d' !! ShapeType.edge = Some sq ∧ d' !! ShapeType.square = Some sq ∧
  d' !! ShapeType.triangle = Some tr ∧ d' !! ShapeType.star = Some st ∧
  d' !! ShapeType.polygon = Some po ∧ d' !! ShapeType.char = Some tx ∧
  d' !! ShapeType.character = Some tx ∧ d' !! ShapeType.image = Some im ∧
  d' !! ShapeType.images = Some im.
Proof.
  cbv zeta. unfold builtinDrawers.
  repeat split;
    repeat (first [ apply lookup_insert_eq | rewrite lookup_insert_ne by done ]).
Qed.

Lemma new_seeds_builtins w w' this :
  Main.new w = Ok this w' → builtinsSeeded w'.
Proof.
  destruct (new_spec w) as (sq & tx & im & ln & ci & tr & st & po & Hnd & _ & E).
  rewrite E. intros [= _ <-].
  destruct w as [win h d p pl dm ch]. world_simpl.
  pose proof (builtinHeap_lookup_new sq tx im ln ci tr st po h Hnd) as Hh.
  pose proof (builtinDrawers_lookup sq tx im ln ci tr st po d) as Hd.
  cbv zeta in Hh, Hd. destruct_and? Hh. destruct_and? Hd.
  unfold builtinsSeeded, builtins, Plugins.resolve. world_simpl.
  repeat (apply Forall_cons; split;
          [eexists; cbn [fst snd]; split; [eassumption|assumption]|]).
  apply Forall_nil_2.
Qed.

(** ** Registration *)

Lemma addShapeDrawer_spec k b w :
  Plugins.addShapeDrawer k b w = Ok tt (set_drawers (<[k := b]> (drawers w)) w).
Proof. reflexivity. Qed.

Lemma resolve_set_drawers k d w :
  Plugins.resolve k (set_drawers d w) = d !! k.
Proof. by destruct w. Qed.

Lemma resolve_register_eq k b d w :
  Plugins.resolve k (set_drawers (<[k := b]> d) w) = Some b.
Proof. rewrite resolve_set_drawers. apply lookup_insert_eq. Qed.

Lemma resolve_register_ne k k' b w :
  k' ≠ k →
  Plugins.resolve k' (set_drawers (<[k := b]> (drawers w)) w) = Plugins.resolve k' w.
Proof.
  intros Hne. rewrite resolve_set_drawers. by apply lookup_insert_ne.
Qed.

Lemma addShape_function_spec shape f init afterEffect destroy w :
  ∃ r, heap w !! r = None ∧
    Main.addShape shape (DrawFunction f) init afterEffect destroy w =
      Ok tt (set_drawers (<[shape := r]> (drawers w))
              (set_heap (<[r := Literal (IShapeDrawer.Build afterEffect f destroy init)]> (heap w)) w)).
Proof.
  destruct (alloc_spec (Literal (IShapeDrawer.Build afterEffect f destroy init)) w)
    as (r & Hr & E).
  exists r. split; [done|].
  unfold Main.addShape. rewrite (bind_ok _ _ _ _ _ E).
  rewrite addShapeDrawer_spec. by destruct w.
Qed.

Lemma addShape_object_spec shape r init afterEffect destroy w :
  Main.addShape shape (DrawerObject r) init afterEffect destroy w =
    Ok tt (set_drawers (<[shape := r]> (drawers w)) w).
Proof. reflexivity. Qed.

(** C1: the bare-function form [addShape(name, drawFn, init, afterEffect,
    destroy)] and the object form [addShape(name, bundle)], with [bundle]
    the object [{draw: drawFn, init, afterEffect, destroy}], register
    equivalent bundles.  Each call succeeds; [name] then resolves to an
    object whose fields are exactly those of the full bundle, its [draw]
    being [drawFn] itself and every hook that was not supplied reading as
    absent; the two worlds reached are even the same. *)
Theorem addShape_forms_register_equivalent_bundles
    (w : World) (name : string) (drawFn : JSFunction)
    (init afterEffect destroy : option JSFunction) :
  let bundle := IShapeDrawer.Build afterEffect drawFn destroy init in
  ∃ (r1 r2 : loc) (w1 wb w2 : World),
    Main.addShape name (DrawFunction drawFn) init afterEffect destroy w = Ok tt w1 ∧
    alloc (Literal bundle) w = Ok r2 wb ∧
    Main.addShape name (DrawerObject r2) None None None wb = Ok tt w2 ∧
    Plugins.resolve name w1 = Some r1 ∧
    Plugins.resolve name w2 = Some r2 ∧
    bundle_at r1 w1 = Some bundle ∧
    bundle_at r2 w2 = Some bundle ∧
    IShapeDrawer.draw bundle = drawFn ∧
    IShapeDrawer.init bundle = init ∧
    IShapeDrawer.afterEffect bundle = afterEffect ∧
    IShapeDrawer.destroy bundle = destroy ∧
    w1 = w2.
Proof.
  intros bundle.
  set (r := fresh (dom (heap w))).
  set (wb := set_heap (<[r := Literal bundle]> (heap w)) w).
  set (w1 := set_drawers (<[name := r]> (drawers wb)) wb).
  exists r, r, w1, wb, w1.
  assert (Hres : Plugins.resolve name w1 = Some r) by apply resolve_register_eq.
  assert (Hat : bundle_at r w1 = Some bundle).
  { unfold bundle_at, w1, wb. destruct w. world_simpl. by rewrite lookup_insert_eq. }
  repeat split; done.
Qed.

(** C10: when [drawer] is a bundle object, the arguments [init],
    [afterEffect] and [destroy] play no part.  The call does what it does
    without them, the key resolves to the very object that was passed, and
    the heap, hence that object and its own hooks, is left as it was. *)
Theorem addShape_object_form_ignores_companions
    (w : World) (name : string) (r : loc)
    (init afterEffect destroy : option JSFunction) :
  ∃ w' : World,
    Main.addShape name (DrawerObject r) init afterEffect destroy w = Ok tt w' ∧
    Main.addShape name (DrawerObject r) None None None w = Ok tt w' ∧
    Plugins.addShapeDrawer name r w = Ok tt w' ∧
    Plugins.resolve name w' = Some r ∧
    heap w' = heap w ∧
    bundle_at r w' = bundle_at r w.
Proof.
  exists (set_drawers (<[name := r]> (drawers w)) w).
  repeat split; first [ done | apply resolve_register_eq | by destruct w ].
Qed.

(** C3: registering a bundle under a key changes the resolution of that
    key and of no other.  This holds for the registry operation itself and
    for both forms of [addShape], which moreover keep every object of the
    heap; in particular, of two keys bound to one old bundle, the one that
    is not registered again still resolves to the old bundle. *)
Theorem register_changes_exactly_one_key :
  (∀ (k : string) (b : loc) (w : World),
     ∃ w', Plugins.addShapeDrawer k b w = Ok tt w' ∧
       Plugins.resolve k w' = Some b ∧
       ∀ k', k' ≠ k → Plugins.resolve k' w' = Plugins.resolve k' w) ∧
  (∀ (k : string) (drawer : DrawerArg) (init afterEffect destroy : option JSFunction)
     (w : World),
     ∃ w' b, Main.addShape k drawer init afterEffect destroy w = Ok tt w' ∧
       Plugins.resolve k w' = Some b ∧
       (∀ k', k' ≠ k → Plugins.resolve k' w' = Plugins.resolve k' w) ∧
       (∀ r o, heap w !! r = Some o → heap w' !! r = Some o)) ∧
  (∀ (k1 k2 : string) (old new : loc) (w : World),
     k1 ≠ k2 →
     Plugins.resolve k1 w = Some old →
     Plugins.resolve k2 w = Some old →
     ∃ w', Plugins.addShapeDrawer k1 new w = Ok tt w' ∧
       Plugins.resolve k1 w' = Some new ∧
       Plugins.resolve k2 w' = Some old).
Proof.
  split; [|split].
  - intros k b w. eexists. split; [apply addShapeDrawer_spec|].
    split; [apply resolve_register_eq|].
    intros k' Hne. by apply resolve_register_ne.
  - intros k [f|r] init afterEffect destroy w.
    + destruct (addShape_function_spec k f init afterEffect destroy w) as (r & Hr & E).
      eexists _, r. split; [exact E|].
      split; [apply resolve_register_eq|]. split.
      * intros k' Hne. rewrite resolve_set_drawers. by apply lookup_insert_ne.
      * intros r' o Hr'. destruct w. world_simpl. world_simpl_in Hr'. world_simpl_in Hr.
        rewrite lookup_insert_ne by congruence. done.
    + eexists _, r. split; [apply addShape_object_spec|].
      split; [apply resolve_register_eq|]. split.
      * intros k' Hne. by apply resolve_register_ne.
      * intros r' o Hr'. by destruct w.
  - intros k1 k2 old new w Hne H1 H2. eexists.
    split; [apply addShapeDrawer_spec|].
    split; [apply resolve_register_eq|].
    rewrite resolve_register_ne by done. done.
Qed.

Lemma register_changes_exactly_one_key_witness :
  let w := set_drawers (<["edge" := 7]> (<["square" := 7]> ∅)) (pristine None) in
  "edge" ≠ "square" ∧
  Plugins.resolve "edge" w = Some 7 ∧
  Plugins.resolve "square" w = Some 7 ∧
  (∃ w', Plugins.addShapeDrawer "edge" 9 w = Ok tt w' ∧
     Plugins.resolve "edge" w' = Some 9 ∧
     Plugins.resolve "square" w' = Some 7) ∧
  (∃ w', Main.addShape "edge" (DrawerObject 9) None None None w = Ok tt w' ∧
     Plugins.resolve "square" w' = Plugins.resolve "square" w).
Proof.
  cbv zeta.
  set (w := set_drawers (<["edge" := 7]> (<["square" := 7]> ∅)) (pristine None)).
  assert (H1 : Plugins.resolve "edge" w = Some 7) by reflexivity.
  assert (H2 : Plugins.resolve "square" w = Some 7) by reflexivity.
  assert (Hne : "edge" ≠ "square") by discriminate.
  assert (Hne' : "square" ≠ "edge") by discriminate.
  split; [exact Hne|]. split; [exact H1|]. split; [exact H2|]. split.
  - exact (proj2 (proj2 register_changes_exactly_one_key) "edge" "square" 7 9 w Hne H1 H2).
  - destruct (proj1 (proj2 register_changes_exactly_one_key)
                "edge" (DrawerObject 9) None None None w) as (w' & b & E & _ & Hother & _).
    exists w'. split; [exact E|]. exact (Hother "square" Hne').
Defined.

(** ** Aliases *)

Lemma registerAlias_pair k1 k2 b w :
  Plugins.registerAlias [k1; k2] b w =
    Ok tt (set_drawers (<[k2 := b]> (<[k1 := b]> (drawers w))) w).
Proof. by destruct w. Qed.

(** C2: once the facade is constructed, [edge] and [square] resolve to one
    and the same location, which holds the [SquareDrawer] instance; so do
    [char] and [character] with the [TextDrawer] instance, and [image] and
    [images] with the [ImageDrawer] instance.  In general, two keys bound
    to one bundle by alias registration both resolve to that bundle. *)
Theorem alias_keys_share_one_instance :
  (∀ w : World,
     ∃ (w' : World) (squareDrawer textDrawer imageDrawer : loc),
       Main.new w = Ok (Main.Build false) w' ∧
       Plugins.resolve "edge" w' = Some squareDrawer ∧
       Plugins.resolve "square" w' = Some squareDrawer ∧
       heap w' !! squareDrawer = Some (Instance SquareDrawer) ∧
       Plugins.resolve "char" w' = Some textDrawer ∧
       Plugins.resolve "character" w' = Some textDrawer ∧
       heap w' !! textDrawer = Some (Instance TextDrawer) ∧
       Plugins.resolve "image" w' = Some imageDrawer ∧
       Plugins.resolve "images" w' = Some imageDrawer ∧
       heap w' !! imageDrawer = Some (Instance ImageDrawer)) ∧
  (∀ (k1 k2 : string) (bundle : loc) (w : World),
     ∃ w' : World,
       Plugins.registerAlias [k1; k2] bundle w = Ok tt w' ∧
       Plugins.resolve k1 w' = Some bundle ∧
       Plugins.resolve k2 w' = Some bundle).
Proof.
  split.
  - intros w.
    destruct (new_spec w) as (sq & tx & im & ln & ci & tr & st & po & Hnd & _ & E).
    pose proof (builtinHeap_lookup_new sq tx im ln ci tr st po (heap w) Hnd) as Hh.
    pose proof (builtinDrawers_lookup sq tx im ln ci tr st po (drawers w)) as Hd.
    cbv zeta in Hh, Hd. destruct_and? Hh. destruct_and? Hd.
    eexists _, sq, tx, im. split; [exact E|].
    rewrite !resolve_set_drawers.
    destruct w as [win h d p pl dm ch]. world_simpl.
    repeat split; assumption.
  - intros k1 k2 bundle w. eexists. split; [apply registerAlias_pair|].
    rewrite !resolve_set_drawers. split.
    + destruct (decide (k1 = k2)) as [->|Hne].
      * apply lookup_insert_eq.
      * rewrite lookup_insert_ne by done. apply lookup_insert_eq.
    + apply lookup_insert_eq.
Qed.

(** ** The scheduler *)

Lemma new_window w w' this :
  Main.new w = Ok this w' → window w' = scheduledWindow <$> window w.
Proof.
  destruct (new_spec w) as (sq & tx & im & ln & ci & tr & st & po & _ & _ & E).
  rewrite E. intros [= _ <-]. by destruct w.
Qed.

Lemma firstAvailable_first pre f post fallback :
  Forall (λ c, c = None) pre →
  firstAvailable (pre ++ Some f :: post) fallback = f.
Proof.
  induction pre as [|c pre IH]; intros Hpre; [done|].
  apply Forall_cons in Hpre as [-> Hpre]. by apply IH.
Qed.

Lemma firstAvailable_fallback candidates fallback :
  Forall (λ c, c = None) candidates →
  firstAvailable candidates fallback = fallback.
Proof.
  induction candidates as [|c cs IH]; intros Hcs; [done|].
  apply Forall_cons in Hcs as [-> Hcs]. by apply IH.
Qed.

Example new_in_moz_browser :
  window (world_of (Main.new (pristine (Some mozWindow)))) =
    Some (mkWindow None None (Some (HostFn 3)) None None
                   None None None None (Some (HostFn 10))
                   (Some (HostFn 3)) (Some (HostFn 10))).
Proof. vm_compute. reflexivity. Qed.

Example new_seeds_from_nothing :
  let w := world_of (Main.new (pristine None)) in
  Plugins.resolve "edge" w = Some 0 ∧ Plugins.resolve "square" w = Some 0 ∧
  Plugins.resolve "character" w = Some 1 ∧ Plugins.resolve "images" w = Some 2 ∧
  Plugins.resolve "heart" w = None ∧ window w = None.
Proof. vm_compute. repeat split. Qed.

(** C4: constructed in a windowed context, the facade binds
    [customRequestAnimationFrame] to the first available of
    [requestAnimationFrame], [webkit...], [moz...], [o...], [ms...], and
    to the timer fallback when there is none; called with a callback, the
    fallback asks for [setTimeout(callback, 1000 / 60)], sixty of which
    make a second.  [customCancelRequestAnimationFrame] is bound likewise
    to the first available cancellation primitive in the same order, and to
    [clearTimeout] when there is none. *)
Theorem scheduler_binds_first_available (w : World) (win : Window) :
  window w = Some win →
  ∃ (w' : World) (win' : Window),
    Main.new w = Ok (Main.Build false) w' ∧
    window w' = Some win' ∧
    customRequestAnimationFrame win' =
      Some (firstAvailable (requestCandidates win) (TimerFallback (1000 / 60)%Q)) ∧
    customCancelRequestAnimationFrame win' =
      Some (firstAvailable (cancelCandidates win) ClearTimeout) ∧
    (∀ callback : JSFunction,
       apply1 (TimerFallback (1000 / 60)%Q) callback = CallSetTimeout callback (1000 / 60)%Q) ∧
    (60 * (1000 / 60) == 1000)%Q.
Proof.
  intros Hwin.
  destruct (new_spec w) as (sq & tx & im & ln & ci & tr & st & po & _ & _ & E).
  eexists _, (scheduledWindow win). split; [exact E|].
  split; [by destruct w; world_simpl; world_simpl_in Hwin; subst|].
  repeat split.
Qed.

Lemma scheduler_binds_first_available_witness :
  window (pristine (Some mozWindow)) = Some mozWindow ∧
  window (pristine (Some bareWindow)) = Some bareWindow ∧
  (∃ w' win',
     Main.new (pristine (Some mozWindow)) = Ok (Main.Build false) w' ∧
     window w' = Some win' ∧
     customRequestAnimationFrame win' = Some (HostFn 3) ∧
     customCancelRequestAnimationFrame win' = Some (HostFn 10)) ∧
  (∃ w' win',
     Main.new (pristine (Some bareWindow)) = Ok (Main.Build false) w' ∧
     window w' = Some win' ∧
     customRequestAnimationFrame win' = Some (TimerFallback (1000 / 60)%Q) ∧
     customCancelRequestAnimationFrame win' = Some ClearTimeout).
Proof.
  split; [reflexivity|]. split; [reflexivity|]. split.
  - destruct (scheduler_binds_first_available (pristine (Some mozWindow)) mozWindow eq_refl)
      as (w' & win' & E & Hw & Hr & Hc & _).
    exists w', win'. repeat split; assumption.
  - destruct (scheduler_binds_first_available (pristine (Some bareWindow)) bareWindow eq_refl)
      as (w' & win' & E & Hw & Hr & Hc & _).
    exists w', win'. repeat split; assumption.
Defined.

Lemma world_of_bind_ret {A B} (m : M A) (f : A → B) w :
  world_of ((m ≫= λ x, mret (f x)) w) = world_of (m w).
Proof. unfold mbind, M_bind. by destruct (m w). Qed.

Lemma world_of_async {A} (m : M (Promise A)) w :
  world_of (async m w) = world_of (m w).
Proof. unfold async. by destruct (m w). Qed.

Lemma init_spec this w : Main.init this w = Ok (Main.Build true) w.
Proof. by destruct this as [[|]]. Qed.

Lemma addShape_window shape drawer init afterEffect destroy w :
  window (world_of (Main.addShape shape drawer init afterEffect destroy w)) = window w.
Proof.
  destruct drawer as [f|r].
  - destruct (addShape_function_spec shape f init afterEffect destroy w) as (r & _ & ->).
    by destruct w.
  - rewrite addShape_object_spec. by destruct w.
Qed.

Section FacadeKeepsWindow.
Context `{L : LoaderOps}.
Hypothesis HL : LoaderKeepsWindow L.

Lemma perform_window c this w :
  window (world_of (perform c this w)) = window w.
Proof.
  destruct HL as (HfromArray & Hload & HloadJSON & Hclick & Hdom & HdomItem).
  destruct c; unfold perform, particlesJS, particlesJS_load,
    particlesJS_setOnClickHandler, Main.loadFromArray, Main.load, Main.loadJSON,
    Main.setOnClickHandler, Main.dom, Main.domItem;
    rewrite ?world_of_bind_ret, ?world_of_async;
    first [ done | by rewrite init_spec | apply addShape_window | by destruct w ].
Qed.

Lemma performAll_window cs this w :
  window (world_of (performAll cs this w)) = window w.
Proof.
  revert this w. induction cs as [|c cs IH]; intros this w; [done|].
  cbn [performAll]. pose proof (perform_window c this w) as Hc.
  unfold mbind, M_bind. destruct (perform c this w) as [this' w'|e w']; cbn in Hc.
  - by rewrite IH.
  - done.
Qed.

Lemma moduleInit_window w ex w1 :
  moduleInit w = Ok ex w1 → window w1 = scheduledWindow <$> window w.
Proof.
  destruct HL as (_ & _ & _ & _ & Hdom & _).
  destruct (new_spec w) as (sq & tx & im & ln & ci & tr & st & po & _ & _ & E).
  pose proof (new_window _ _ _ E) as Hnew.
  unfold moduleInit. rewrite (bind_ok _ _ _ _ _ E). unfold Main.dom.
  unfold mbind at 1, M_bind.
  match goal with
  | |- context [Loader_dom ?w0] =>
      specialize (Hdom w0); destruct (Loader_dom w0) as [d w'|e w']
  end.
  - intros [= _ <-]. cbn [world_of] in Hdom. by rewrite Hdom.
  - done.
Qed.
End FacadeKeepsWindow.

Lemma spec_load_world construct tagId params w :
  ∃ p w', spec_load construct tagId params w = Ok (Fulfilled p) w' ∧
    window w' = window w ∧ heap w' = heap w ∧
    (p = None → w' = w).
Proof.
  unfold spec_load, mbind, M_bind, get.
  destruct (construct tagId params w) as [c|].
  - exists (Some c). eexists. split; [reflexivity|]. by destruct w.
  - exists None, w. done.
Qed.

Lemma SpecLoader_keeps_window fetch parse construct pick destroyed :
  LoaderKeepsWindow (SpecLoader fetch parse construct pick destroyed).
Proof.
  repeat split; cbn [Loader_loadFromArray Loader_load Loader_loadJSON
    Loader_setOnClickHandler Loader_dom Loader_domItem SpecLoader].
  - intros tagId params index w. unfold spec_loadFromArray.
    by destruct (spec_load_world construct tagId
      match index with
      | Some i =>
          if bool_decide (0 ≤ i < Z.of_nat (length params))%Z
          then default (pick params) (params !! Z.to_nat i)
          else pick params
      | None => pick params
      end w) as (p & w' & -> & Hw & _).
  - intros tagId params w.
    by destruct (spec_load_world construct tagId params w) as (p & w' & -> & Hw & _).
  - intros tagId path w. unfold spec_loadJSON.
    destruct (fetch path) as [body| |]; [|done..].
    destruct (parse body) as [params|]; [|done].
    by destruct (spec_load_world construct tagId params w) as (p & w' & -> & Hw & _).
Qed.

(** ** The facade over the [Loader] of the spec *)

(** Every object of the heap is kept by every use of the interface. *)
Lemma addShape_heap_subseteq shape drawer init afterEffect destroy w :
  heap w ⊆ heap (world_of (Main.addShape shape drawer init afterEffect destroy w)).
Proof.
  destruct drawer as [f|r].
  - destruct (addShape_function_spec shape f init afterEffect destroy w) as (r & Hr & ->).
    destruct w. world_simpl. world_simpl_in Hr. cbn [world_of]. by apply insert_subseteq.
  - rewrite addShape_object_spec. by destruct w.
Qed.

Section SpecFacade.
Variable fetch : string → FetchOutcome.
Variable parse : string → option Options.
Variable construct : string → Options → World → option Container.
Variable pick : list Options → Options.
Variable destroyed : Container → bool.

Local Abbreviation L := (SpecLoader fetch parse construct pick destroyed).

Lemma spec_load_heap tagId params w :
  heap (world_of (spec_load construct tagId params w)) = heap w.
Proof. by destruct (spec_load_world construct tagId params w) as (p & w' & -> & _ & ? & _). Qed.

Lemma spec_dom_spec w :
  ∃ r, heap w !! r = None ∧
    spec_dom w = Ok r (set_heap (<[r := ArrayOf (tsParticlesDom w)]> (heap w)) w).
Proof.
  destruct (alloc_spec (ArrayOf (tsParticlesDom w)) w) as (r & Hr & E).
  exists r. split; [done|]. unfold spec_dom.
  by rewrite (bind_ok get _ w w w eq_refl).
Qed.

Lemma perform_heap_subseteq c this w :
  heap w ⊆ heap (world_of (perform (H := L) c this w)).
Proof.
  destruct c; unfold perform, particlesJS, particlesJS_load,
    particlesJS_setOnClickHandler, Main.loadFromArray, Main.load, Main.loadJSON,
    Main.setOnClickHandler, Main.dom, Main.domItem;
    rewrite ?world_of_bind_ret, ?world_of_async;
    cbn [Loader_loadFromArray Loader_load Loader_loadJSON
         Loader_setOnClickHandler Loader_dom Loader_domItem SpecLoader].
  - by rewrite init_spec.
  - unfold spec_loadFromArray. by rewrite spec_load_heap.
  - by rewrite spec_load_heap.
  - unfold spec_loadJSON. destruct (fetch pathConfigJson) as [body| |]; [|done..].
    destruct (parse body); [|done]. by rewrite spec_load_heap.
  - by destruct w.
  - destruct (spec_dom_spec w) as (r & Hr & ->). destruct w.
    world_simpl. world_simpl_in Hr. cbn [world_of]. by apply insert_subseteq.
  - done.
  - apply addShape_heap_subseteq.
  - by destruct w.
  - by destruct w.
  - by rewrite spec_load_heap.
  - unfold spec_loadJSON. destruct (fetch pathConfigJson) as [body| |]; [|done..].
    destruct (parse body); [|done]. by rewrite spec_load_heap.
  - by destruct w.
Qed.

Lemma performAll_heap_subseteq cs this w :
  heap w ⊆ heap (world_of (performAll (H := L) cs this w)).
Proof.
  revert this w. induction cs as [|c cs IH]; intros this w; [done|].
  cbn [performAll]. pose proof (perform_heap_subseteq c this w) as Hc.
  unfold mbind, M_bind. destruct (perform c this w) as [this' w'|e w']; cbn in Hc.
  - etrans; [exact Hc|apply IH].
  - done.
Qed.

Lemma moduleInit_spec w :
  ∃ (w1 : World) (r : loc),
    Main.new w = Ok (Main.Build false) w1 ∧
    tsParticlesDom w1 = tsParticlesDom w ∧
    heap w ⊆ heap w1 ∧
    heap w1 !! r = None ∧
    moduleInit (H := L) w =
      Ok (mkExports (Main.Build false) r)
         (set_heap (<[r := ArrayOf (tsParticlesDom w)]> (heap w1)) w1).
Proof.
  destruct (new_spec w) as (sq & tx & im & ln & ci & tr & st & po & _ & Hfresh & E).
  eexists. destruct (spec_dom_spec
    (set_drawers (builtinDrawers sq tx im ln ci tr st po (drawers w))
      (set_heap (builtinHeap sq tx im ln ci tr st po (heap w))
        (set_window (scheduledWindow <$> window w) w)))) as (r & Hr & Edom).
  exists r. split; [exact E|].
  split; [by destruct w|]. split.
  - apply map_subseteq_spec. intros r' o Hr'. destruct w. world_simpl.
    by apply builtinHeap_lookup_old.
  - split; [exact Hr|]. unfold moduleInit.
    rewrite (bind_ok _ _ _ _ _ E). unfold Main.dom. cbn [Loader_dom SpecLoader].
    rewrite (bind_ok _ _ _ _ _ Edom). by destruct w.
Qed.

End SpecFacade.

(** C5: the scheduler is resolved by the constructor only, and only in a
    windowed context.  Without a window the constructor ends without a
    fault, leaves the world without a window, hence without bindings, and
    has seeded every built-in drawer.  And no use of the exported interface
    changes [window], as long as [Loader] does not: after the module was
    evaluated, with its one construction, [window] stays what that
    construction made of the window it found, and nothing is resolved
    again. *)
Theorem scheduler_resolved_by_constructor_only `{L : LoaderOps} :
  (∀ w : World,
     window w = None →
     ∃ w', Main.new w = Ok (Main.Build false) w' ∧
       window w' = None ∧
       builtinsSeeded w') ∧
  (∀ w : World, ∃ w', Main.new w = Ok (Main.Build false) w') ∧
  (LoaderKeepsWindow L →
   ∀ (cs : list Call) (this : Main.t) (w : World),
     window (world_of (performAll cs this w)) = window w) ∧
  (LoaderKeepsWindow L →
   ∀ (w w1 : World) (ex : Exports) (cs : list Call),
     moduleInit w = Ok ex w1 →
     window (world_of (performAll cs (tsParticles ex) w1)) = scheduledWindow <$> window w).
Proof.
  split; [|split; [|split]].
  - intros w Hw.
    destruct (new_spec w) as (sq & tx & im & ln & ci & tr & st & po & _ & _ & E).
    eexists. split; [exact E|]. split.
    + rewrite (new_window _ _ _ E), Hw. done.
    + exact (new_seeds_builtins _ _ _ E).
  - intros w.
    destruct (new_spec w) as (sq & tx & im & ln & ci & tr & st & po & _ & _ & E).
    eexists. exact E.
  - intros HL cs this w. by apply performAll_window.
  - intros HL w w1 ex cs E.
    rewrite (performAll_window HL). by apply (moduleInit_window HL w ex).
Qed.

Lemma scheduler_resolved_by_constructor_only_witness :
  window (pristine None) = None ∧
  (∃ w', Main.new (pristine None) = Ok (Main.Build false) w' ∧
     window w' = None ∧ builtinsSeeded w') ∧
  LoaderKeepsWindow demoLoader ∧
  window (world_of (performAll (H := demoLoader)
            [ CallInit; CallLoad "particles" (OptionsRef 0);
              CallAddShape "heart" (DrawFunction (HostFn 1)) None None None;
              CallLoadJSON "particles" "missing.json"; CallDom ]
            (Main.Build false) (pristine (Some mozWindow))))
    = Some mozWindow ∧
  (∃ ex w1,
     moduleInit (H := demoLoader) (pristine (Some bareWindow)) = Ok ex w1 ∧
     window (world_of (performAll (H := demoLoader)
               [ CallLoad "particles" (OptionsRef 0); CallInit ] (tsParticles ex) w1))
       = Some (scheduledWindow bareWindow)).
Proof.
  pose proof (SpecLoader_keeps_window demoFetch demoParse demoConstruct demoPick
                demoDestroyed) as HL.
  split; [reflexivity|]. split; [|split; [exact HL|split]].
  - exact (proj1 (scheduler_resolved_by_constructor_only (L := demoLoader))
             (pristine None) eq_refl).
  - exact (proj1 (proj2 (proj2 (scheduler_resolved_by_constructor_only (L := demoLoader))))
             HL _ (Main.Build false) (pristine (Some mozWindow))).
  - destruct (moduleInit_spec demoFetch demoParse demoConstruct demoPick demoDestroyed
                (pristine (Some bareWindow))) as (w0 & r & _ & _ & _ & _ & E).
    eexists _, _. split; [exact E|].
    exact (proj2 (proj2 (proj2 (scheduler_resolved_by_constructor_only (L := demoLoader))))
             HL _ _ _ _ E).
Defined.

(** ** Initialization *)

Lemma initTimes_spec n this w :
  initTimes (S n) this w = Ok (Main.Build true) w.
Proof.
  revert this. induction n as [|n IH]; intros this.
  - cbn [initTimes]. by rewrite (bind_ok _ _ _ _ _ (init_spec this w)).
  - change (initTimes (S (S n)) this) with (this' ← Main.init this; initTimes (S n) this').
    rewrite (bind_ok _ _ _ _ _ (init_spec this w)). apply IH.
Qed.

(** C6: [init()] is idempotent.  Called once or more in a row it ends
    where one call ends, never with a fault; that is with the flag set and
    the world untouched.  A call on an instance whose flag is set changes
    nothing, so only a first call can have an effect. *)
Theorem init_idempotent (n : nat) (this : Main.t) (w : World) :
  initTimes (S n) this w = Main.init this w ∧
  Main.init this w = Ok (Main.Build true) w ∧
  Main.init (Main.Build true) w = Ok (Main.Build true) w ∧
  (this' ← Main.init this; Main.init this') w = Main.init this w.
Proof.
  rewrite initTimes_spec, init_spec. repeat split.
  by rewrite (bind_ok _ _ _ _ _ (init_spec this w)).
Qed.

(** ** The legacy loader *)

Lemma loadJSON_forwards `{L : LoaderOps} tagId path :
  Main.loadJSON tagId path = Loader_loadJSON tagId path.
Proof. reflexivity. Qed.

Lemma particlesJS_load_spec `{L : LoaderOps} tagId path callback w :
  particlesJS_load tagId path callback w =
    match Main.loadJSON tagId path w with
    | Ok p w' => Ok (then_ p (onLoaded callback)) w'
    | Fault e w' => Fault e w'
    end.
Proof. reflexivity. Qed.

(** C7: [particlesJS.load(tagId, path, callback)] forwards to [loadJSON]
    and calls [callback] exactly when the promise is fulfilled with a
    container, once and with that container; fulfilled with an absent
    result it calls nothing and reports nothing. *)
Theorem particlesJS_load_calls_back_iff_container `{L : LoaderOps}
    (tagId path : string) (callback : JSFunction) (w w' : World)
    (p : Promise (option Container)) :
  Main.loadJSON tagId path w = Ok p w' →
  ∃ calls : list Invocation,
    particlesJS_load tagId path callback w = Ok calls w' ∧
    (∀ c, p = Fulfilled (Some c) → calls = [Invoke callback c]) ∧
    (p = Fulfilled None → calls = []) ∧
    (∀ inv, inv ∈ calls ↔ ∃ c, p = Fulfilled (Some c) ∧ inv = Invoke callback c).
Proof.
  intros E. exists (then_ p (onLoaded callback)).
  split; [by rewrite particlesJS_load_spec, E|].
  split; [by intros c ->|]. split; [by intros ->|].
  intros inv. destruct p as [[c|]|e|]; cbn [then_ onLoaded].
  - rewrite list_elem_of_singleton. split.
    + intros ->. by exists c.
    + by intros (c' & [= ->] & ->).
  - split; [by intros ?%elem_of_nil|]. by intros (c & [=] & _).
  - split; [by intros ?%elem_of_nil|]. by intros (c & [=] & _).
  - split; [by intros ?%elem_of_nil|]. by intros (c & [=] & _).
Qed.

Lemma particlesJS_load_calls_back_iff_container_witness :
  let cb := HostFn 42 in
  let w := pristine (Some mozWindow) in
  (∃ w', Main.loadJSON (H := demoLoader) "particles" "particles.json" w
           = Ok (Fulfilled (Some (ContainerRef 0))) w' ∧
         particlesJS_load (H := demoLoader) "particles" "particles.json" cb w
           = Ok [Invoke cb (ContainerRef 0)] w') ∧
  (Main.loadJSON (H := demoLoader) "particles" "missing.json" w = Ok (Fulfilled None) w ∧
   particlesJS_load (H := demoLoader) "particles" "missing.json" cb w = Ok [] w).
Proof.
  cbv zeta. split.
  - eexists.
    assert (E : Main.loadJSON (H := demoLoader) "particles" "particles.json"
                  (pristine (Some mozWindow))
                = Ok (Fulfilled (Some (ContainerRef 0)))
                     (set_tsParticlesDom [ContainerRef 0] (pristine (Some mozWindow))))
      by reflexivity.
    split; [exact E|].
    destruct (particlesJS_load_calls_back_iff_container (L := demoLoader)
                "particles" "particles.json" (HostFn 42) _ _ _ E)
      as (calls & Ecalls & Hsome & _).
    rewrite Ecalls. f_equal. exact (Hsome (ContainerRef 0) eq_refl).
  - assert (E : Main.loadJSON (H := demoLoader) "particles" "missing.json"
                  (pristine (Some mozWindow))
                = Ok (Fulfilled None) (pristine (Some mozWindow)))
      by reflexivity.
    split; [exact E|].
    destruct (particlesJS_load_calls_back_iff_container (L := demoLoader)
                "particles" "missing.json" (HostFn 42) _ _ _ E)
      as (calls & Ecalls & _ & Hnone & _).
    rewrite Ecalls. f_equal. exact (Hnone eq_refl).
Defined.

(** ** Load failures *)

(** C9: with the [Loader] of the spec, [loadJSON(tagId, path)] never ends
    with a fault and never returns a rejected promise; on a network failure
    and on a body that does not parse the promise is fulfilled with an
    absent result and the world is left as it was.  [load] and
    [loadFromArray] likewise always return a fulfilled promise, so the
    three entry points fail in one way. *)
Theorem loadJSON_failure_resolves_absent
    (fetch : string → FetchOutcome) (parse : string → option Options)
    (construct : string → Options → World → option Container)
    (pick : list Options → Options) (destroyed : Container → bool)
    (tagId path : string) (w : World) :
  let L := SpecLoader fetch parse construct pick destroyed in
  (∃ p w', Main.loadJSON (H := L) tagId path w = Ok p w' ∧
     (∀ e, p ≠ Rejected e) ∧
     (fetch path = NetworkFailure → p = Fulfilled None ∧ w' = w) ∧
     (∀ body, fetch path = Response body → parse body = None →
        p = Fulfilled None ∧ w' = w)) ∧
  (∀ params, ∃ r w', Main.load (H := L) tagId params w = Ok (Fulfilled r) w') ∧
  (∀ params index,
     ∃ r w', Main.loadFromArray (H := L) tagId params index w = Ok (Fulfilled r) w').
Proof.
  intros L. split; [|split].
  - rewrite loadJSON_forwards. cbn [Loader_loadJSON L SpecLoader]. unfold spec_loadJSON.
    destruct (fetch path) as [body| |] eqn:Ef.
    + destruct (parse body) as [params|] eqn:Ep.
      * destruct (spec_load_world construct tagId params w) as (r & w' & E & _).
        exists (Fulfilled r), w'. split; [exact E|].
        split; [done|]. split; [done|].
        intros body' [= <-] Hp. congruence.
      * exists (Fulfilled None), w. repeat split; done.
    + exists (Fulfilled None), w. repeat split; done.
    + exists Pending, w. repeat split; done.
  - intros params. unfold Main.load, async. cbn [Loader_load L SpecLoader].
    destruct (spec_load_world construct tagId params w) as (r & w' & E & _).
    exists r, w'. by rewrite E.
  - intros params index. unfold Main.loadFromArray, async.
    cbn [Loader_loadFromArray L SpecLoader]. unfold spec_loadFromArray.
    match goal with
    | |- context [spec_load construct tagId ?chosen w] =>
        destruct (spec_load_world construct tagId chosen w) as (r & w' & E & _)
    end.
    exists r, w'. by rewrite E.
Qed.

Lemma loadJSON_failure_resolves_absent_witness :
  let w := pristine (Some mozWindow) in
  demoFetch "missing.json" = NetworkFailure ∧
  demoFetch "broken.json" = Response "{" ∧
  demoParse "{" = None ∧
  Main.loadJSON (H := demoLoader) "particles" "missing.json" w = Ok (Fulfilled None) w ∧
  Main.loadJSON (H := demoLoader) "particles" "broken.json" w = Ok (Fulfilled None) w.
Proof.
  cbv zeta.
  split; [reflexivity|]. split; [reflexivity|]. split; [reflexivity|]. split.
  - destruct (proj1 (loadJSON_failure_resolves_absent demoFetch demoParse demoConstruct
                       demoPick demoDestroyed "particles" "missing.json"
                       (pristine (Some mozWindow))))
      as (p & w' & E & _ & Hnet & _).
    destruct (Hnet eq_refl) as [-> ->]. exact E.
  - destruct (proj1 (loadJSON_failure_resolves_absent demoFetch demoParse demoConstruct
                       demoPick demoDestroyed "particles" "broken.json"
                       (pristine (Some mozWindow))))
      as (p & w' & E & _ & _ & Hparse).
    destruct (Hparse "{" eq_refl eq_refl) as [-> ->]. exact E.
Defined.

(** ** The snapshot [pJSDom] *)

(** C8: with the [Loader] of the spec, evaluating the module in a world
    where nothing is loaded yet captures [pJSDom] once, as a new array that
    is empty; whatever is done afterwards through the exported interface,
    that array stays empty.  A container loaded afterwards enters the
    tracked collection and a later [dom()] returns another array that holds
    it, while [pJSDom] still holds nothing. *)
Theorem pJSDom_is_an_empty_snapshot
    (fetch : string → FetchOutcome) (parse : string → option Options)
    (construct : string → Options → World → option Container)
    (pick : list Options → Options) (destroyed : Container → bool)
    (w : World) :
  let L := SpecLoader fetch parse construct pick destroyed in
  tsParticlesDom w = [] →
  ∃ (ex : Exports) (w1 : World),
    moduleInit (H := L) w = Ok ex w1 ∧
    heap w !! pJSDom ex = None ∧
    heap w1 !! pJSDom ex = Some (ArrayOf []) ∧
    tsParticlesDom w1 = [] ∧
    (∀ cs : list Call,
       heap (world_of (performAll (H := L) cs (tsParticles ex) w1)) !! pJSDom ex
         = Some (ArrayOf [])) ∧
    (∀ tagId params c,
       construct tagId params w1 = Some c →
       ∃ (w2 w3 : World) (later : loc),
         Main.load (H := L) tagId params w1 = Ok (Fulfilled (Some c)) w2 ∧
         tsParticlesDom w2 = [c] ∧
         Main.dom (H := L) w2 = Ok later w3 ∧
         later ≠ pJSDom ex ∧
         heap w3 !! later = Some (ArrayOf [c]) ∧
         heap w3 !! pJSDom ex = Some (ArrayOf [])).
Proof.
  intros L Hempty.
  destruct (moduleInit_spec fetch parse construct pick destroyed w)
    as (w0 & r & Enew & Hdom & Hsub & Hr & E).
  rewrite Hempty in E.
  eexists _, _. split; [exact E|]. cbn [pJSDom tsParticles].
  assert (Hhere : heap (set_heap (<[r := ArrayOf []]> (heap w0)) w0) !! r = Some (ArrayOf [])).
  { destruct w0. world_simpl. apply lookup_insert_eq. }
  split; [|split; [exact Hhere|split; [|split]]].
  - destruct (heap w !! r) as [o|] eqn:Ho; [|done].
    apply (lookup_weaken _ _ _ _ Ho) in Hsub. congruence.
  - rewrite <- Hempty, <- Hdom. by destruct w0.
  - intros cs. eapply lookup_weaken; [exact Hhere|].
    apply performAll_heap_subseteq.
  - intros tagId params c Hc.
    set (w1 := set_heap (<[r := ArrayOf []]> (heap w0)) w0) in *.
    assert (Hdom1 : tsParticlesDom w1 = []).
    { rewrite <- Hempty, <- Hdom. unfold w1. by destruct w0. }
    set (w2 := set_tsParticlesDom [c] w1).
    assert (Eload : Main.load (H := L) tagId params w1 = Ok (Fulfilled (Some c)) w2).
    { unfold Main.load, async. cbn [Loader_load L SpecLoader].
      unfold spec_load, mbind, M_bind, get. rewrite Hc, Hdom1. reflexivity. }
    destruct (spec_dom_spec w2) as (later & Hlater & Edom).
    assert (Hhere2 : heap w2 !! r = Some (ArrayOf [])).
    { unfold w2. by destruct w1. }
    assert (Hne : later ≠ r) by congruence.
    eexists w2, _, later. split; [exact Eload|].
    split; [unfold w2; by destruct w1|].
    split; [exact Edom|]. split; [exact Hne|].
    assert (Hdom2 : tsParticlesDom w2 = [c]) by (unfold w2; by destruct w1).
    rewrite Hdom2. destruct w2. world_simpl. world_simpl_in Hhere2. split.
    + apply lookup_insert_eq.
    + rewrite lookup_insert_ne by done. exact Hhere2.
Qed.

Lemma pJSDom_is_an_empty_snapshot_witness :
  let w := pristine (Some mozWindow) in
  tsParticlesDom w = [] ∧
  ∃ (ex : Exports) (w1 w2 : World),
    moduleInit (H := demoLoader) w = Ok ex w1 ∧
    heap w1 !! pJSDom ex = Some (ArrayOf []) ∧
    performAll (H := demoLoader) [CallLoad "particles" (OptionsRef 0)] (tsParticles ex) w1
      = Ok (tsParticles ex) w2 ∧
    tsParticlesDom w2 = [ContainerRef 0] ∧
    heap w2 !! pJSDom ex = Some (ArrayOf []).
Proof.
  cbv zeta. unfold demoLoader. split; [reflexivity|].
  destruct (pJSDom_is_an_empty_snapshot demoFetch demoParse demoConstruct demoPick
              demoDestroyed (pristine (Some mozWindow)) eq_refl)
    as (ex & w1 & E & _ & Hhere & Hdom & Hall & Hload).
  assert (Hc : demoConstruct "particles" (OptionsRef 0) w1 = Some (ContainerRef 0)).
  { unfold demoConstruct. rewrite Hdom. reflexivity. }
  destruct (Hload "particles" (OptionsRef 0) (ContainerRef 0) Hc)
    as (w2 & w3 & later & Eload & Hdom2 & _).
  exists ex, w1, w2. split; [exact E|]. split; [exact Hhere|].
  assert (Estep : perform (H := SpecLoader demoFetch demoParse demoConstruct demoPick
                                  demoDestroyed)
                    (CallLoad "particles" (OptionsRef 0)) (tsParticles ex) w1
                  = Ok (tsParticles ex) w2).
  { cbn [perform]. by rewrite (bind_ok _ _ _ _ _ Eload). }
  assert (Erun : performAll (H := SpecLoader demoFetch demoParse demoConstruct demoPick
                                   demoDestroyed)
                   [CallLoad "particles" (OptionsRef 0)] (tsParticles ex) w1
                 = Ok (tsParticles ex) w2).
  { cbn [performAll]. by rewrite (bind_ok _ _ _ _ _ Estep). }
  split; [exact Erun|]. split; [exact Hdom2|].
  specialize (Hall [CallLoad "particles" (OptionsRef 0)]).
  rewrite Erun in Hall. exact Hall.
Defined.

(** * Further properties of the facade *)

(** ** Synchronous faults of the [Loader] *)

Lemma async_ok {A} (body : M (Promise A)) w p w' :
  body w = Ok p w' → async body w = Ok p w'.
Proof. unfold async. by intros ->. Qed.

Lemma async_fault {A} (body : M (Promise A)) w e w' :
  body w = Fault e w' → async body w = Ok (Rejected e) w'.
Proof. unfold async. by intros ->. Qed.

Lemma async_total {A} (body : M (Promise A)) w :
  ∃ p w', async body w = Ok p w'.
Proof. unfold async. destruct (body w); eauto. Qed.

(** X1: [load], [loadFromArray] and the legacy [particlesJS] are [async]:
    whatever the [Loader] does, they return a promise and never throw.  A
    fault thrown by the [Loader] method becomes a rejection with that
    error, in the world the fault left; a promise returned by the [Loader]
    is passed on. *)
Theorem async_methods_never_throw `{L : LoaderOps}
    (tagId : string) (params : Options) (paramsArray : list Options)
    (index : option Z) (w : World) :
  (∃ p w', Main.load tagId params w = Ok p w') ∧
  (∃ p w', Main.loadFromArray tagId paramsArray index w = Ok p w') ∧
  (∃ p w', particlesJS tagId params w = Ok p w') ∧
  (∀ e w', Loader_load tagId params w = Fault e w' →
     Main.load tagId params w = Ok (Rejected e) w' ∧
     particlesJS tagId params w = Ok (Rejected e) w') ∧
  (∀ e w', Loader_loadFromArray tagId paramsArray index w = Fault e w' →
     Main.loadFromArray tagId paramsArray index w = Ok (Rejected e) w') ∧
  (∀ p w', Loader_load tagId params w = Ok p w' →
     Main.load tagId params w = Ok p w' ∧
     particlesJS tagId params w = Ok p w') ∧
  (∀ p w', Loader_loadFromArray tagId paramsArray index w = Ok p w' →
     Main.loadFromArray tagId paramsArray index w = Ok p w').
Proof.
  unfold particlesJS, Main.load, Main.loadFromArray.
  split; [apply async_total|]. split; [apply async_total|].
  split; [apply async_total|].
  split; [intros e w' E; split; by apply async_fault|].
  split; [intros e w' E; by apply async_fault|].
  split; [intros p w' E; split; by apply async_ok|].
  intros p w' E. by apply async_ok.
Qed.

Lemma async_methods_never_throw_witness :
  Loader_load (LoaderOps := throwingLoader) "particles" (OptionsRef 0) (pristine None)
    = Fault (HostError 2) (pristine None) ∧
  Main.load (H := throwingLoader) "particles" (OptionsRef 0) (pristine None)
    = Ok (Rejected (HostError 2)) (pristine None) ∧
  particlesJS (H := throwingLoader) "particles" (OptionsRef 0) (pristine None)
    = Ok (Rejected (HostError 2)) (pristine None) ∧
  Main.loadFromArray (H := throwingLoader) "particles" [OptionsRef 0] None (pristine None)
    = Ok (Rejected (HostError 1)) (pristine None).
Proof.
  pose proof (async_methods_never_throw (L := throwingLoader)
                "particles" (OptionsRef 0) [OptionsRef 0] None (pristine None))
    as (_ & _ & _ & Hload & Harray & _).
  split; [reflexivity|].
  destruct (Hload (HostError 2) (pristine None) eq_refl) as [H1 H2].
  split; [exact H1|]. split; [exact H2|].
  exact (Harray (HostError 1) (pristine None) eq_refl).
Defined.

(** X2: [loadJSON] is not [async], and the legacy [particlesJS.load] has
    no handler of its own: [particlesJS.load] leaves the world as
    [loadJSON] leaves it, and it throws exactly when [Loader.loadJSON]
    throws, with the same error and in the same world, the callback not
    being called. *)
Theorem legacy_load_throws_iff_loader_throws `{L : LoaderOps}
    (tagId path : string) (callback : JSFunction) (w : World) :
  world_of (particlesJS_load tagId path callback w) = world_of (Main.loadJSON tagId path w) ∧
  (∀ e w', Loader_loadJSON tagId path w = Fault e w' →
     Main.loadJSON tagId path w = Fault e w' ∧
     particlesJS_load tagId path callback w = Fault e w') ∧
  (∀ e w', particlesJS_load tagId path callback w = Fault e w' →
     Loader_loadJSON tagId path w = Fault e w') ∧
  (∀ calls w', particlesJS_load tagId path callback w = Ok calls w' →
     ∃ p, Loader_loadJSON tagId path w = Ok p w' ∧ calls = then_ p (onLoaded callback)).
Proof.
  rewrite particlesJS_load_spec, loadJSON_forwards.
  destruct (Loader_loadJSON tagId path w) as [p w0|e0 w0]; cbn [world_of].
  - split; [done|]. split; [done|]. split; [done|].
    intros calls w' [= <- <-]. by exists p.
  - split; [done|]. split; [by intros e w' [= <- <-]|]. split; [|done].
    by intros e w' [= <- <-].
Qed.

Lemma legacy_load_throws_iff_loader_throws_witness :
  Loader_loadJSON (LoaderOps := throwingLoader) "particles" "particles.json" (pristine None)
    = Fault (HostError 3) (pristine None) ∧
  Main.loadJSON (H := throwingLoader) "particles" "particles.json" (pristine None)
    = Fault (HostError 3) (pristine None) ∧
  particlesJS_load (H := throwingLoader) "particles" "particles.json" (HostFn 42)
      (pristine None)
    = Fault (HostError 3) (pristine None) ∧
  (∃ p, Loader_loadJSON (LoaderOps := demoLoader) "particles" "missing.json" (pristine None)
          = Ok p (pristine None) ∧
        [] = then_ p (onLoaded (HostFn 42))).
Proof.
  split; [reflexivity|].
  pose proof (legacy_load_throws_iff_loader_throws (L := throwingLoader)
                "particles" "particles.json" (HostFn 42) (pristine None))
    as (_ & Hthrow & _).
  destruct (Hthrow (HostError 3) (pristine None) eq_refl) as [H1 H2].
  split; [exact H1|]. split; [exact H2|].
  pose proof (legacy_load_throws_iff_loader_throws (L := demoLoader)
                "particles" "missing.json" (HostFn 42) (pristine None))
    as (_ & _ & _ & Hok).
  exact (Hok [] (pristine None) eq_refl).
Defined.

(** ** The instance flag *)

Lemma perform_initialized `{L : LoaderOps} c this w this' w' :
  perform c this w = Ok this' w' →
  Main.initialized this' = Main.initialized this || isInit c.
Proof.
  destruct c; cbn [perform isInit]; rewrite ?orb_false_r, ?orb_true_r;
    try (unfold mbind, M_bind;
         match goal with
         | |- match ?m with _ => _ end = _ → _ => destruct m
         end; by intros [= <- _]).
  rewrite init_spec. by intros [= <- _].
Qed.

(** X5: of all the operations the module exports, [init()] alone writes
    the instance.  After any sequence of calls that ends without a fault,
    for any [Loader], the flag [initialized] is set exactly if it was set
    before or [init()] was among the calls; so it is never cleared. *)
Theorem only_init_sets_the_flag `{L : LoaderOps}
    (cs : list Call) (this this' : Main.t) (w w' : World) :
  performAll cs this w = Ok this' w' →
  Main.initialized this' = Main.initialized this || existsb isInit cs.
Proof.
  revert this w. induction cs as [|c cs IH]; intros this w.
  - intros [= <- _]. cbn [existsb]. by rewrite orb_false_r.
  - cbn [performAll existsb]. unfold mbind, M_bind.
    destruct (perform c this w) as [this1 w1|e w1] eqn:Ec; [|done].
    intros E. rewrite (IH _ _ E), (perform_initialized _ _ _ _ _ Ec).
    by rewrite orb_assoc.
Qed.

Lemma only_init_sets_the_flag_witness :
  let cs := [ CallAddShape "heart" (DrawFunction (HostFn 1)) None None None;
              CallLoad "particles" (OptionsRef 0) ] in
  (∃ w', performAll (H := demoLoader) cs (Main.Build false) (pristine None)
           = Ok (Main.Build false) w') ∧
  (∃ w', performAll (H := demoLoader) (cs ++ [CallInit] ++ cs) (Main.Build false)
           (pristine None)
           = Ok (Main.Build true) w').
Proof.
  cbv zeta. split.
  - destruct (performAll (H := demoLoader)
                [ CallAddShape "heart" (DrawFunction (HostFn 1)) None None None;
                  CallLoad "particles" (OptionsRef 0) ]
                (Main.Build false) (pristine None)) as [[b] w'|e w'] eqn:E;
      [|by vm_compute in E].
    pose proof (only_init_sets_the_flag (L := demoLoader) _ _ _ _ _ E) as Hb.
    cbn in Hb. subst b. by exists w'.
  - destruct (performAll (H := demoLoader)
                ([ CallAddShape "heart" (DrawFunction (HostFn 1)) None None None;
                   CallLoad "particles" (OptionsRef 0) ] ++ [CallInit] ++
                 [ CallAddShape "heart" (DrawFunction (HostFn 1)) None None None;
                   CallLoad "particles" (OptionsRef 0) ])
                (Main.Build false) (pristine None)) as [[b] w'|e w'] eqn:E;
      [|by vm_compute in E].
    pose proof (only_init_sets_the_flag (L := demoLoader) _ _ _ _ _ E) as Hb.
    cbn in Hb. subst b. by exists w'.
Defined.

(** ** What the constructor writes to [window] *)



Lemma new_total w : ∃ w', Main.new w = Ok (Main.Build false) w'.
Proof.
  destruct (new_spec w) as (sq & tx & im & ln & ci & tr & st & po & _ & _ & E).
  eauto.
Qed.




(** X4: the two bindings are chosen independently of each other.  A window
    that offers [requestAnimationFrame] and no cancellation primitive gets
    that function paired with [clearTimeout]; a window that offers
    [cancelAnimationFrame] and no request primitive gets the [setTimeout]
    fallback paired with that function. *)
Theorem scheduler_pair_is_chosen_independently :
  (∀ (w : World) (win : Window) (f : JSFunction),
     window w = Some win →
     requestAnimationFrame win = Some f →
     Forall (λ c, c = None) (cancelCandidates win) →
     ∃ w' win',
       Main.new w = Ok (Main.Build false) w' ∧
       window w' = Some win' ∧
       customRequestAnimationFrame win' = Some f ∧
       customCancelRequestAnimationFrame win' = Some ClearTimeout) ∧
  (∀ (w : World) (win : Window) (g : JSFunction),
     window w = Some win →
     Forall (λ c, c = None) (requestCandidates win) →
     cancelAnimationFrame win = Some g →
     ∃ w' win',
       Main.new w = Ok (Main.Build false) w' ∧
       window w' = Some win' ∧
       customRequestAnimationFrame win' = Some (TimerFallback (1000 / 60)%Q) ∧
       customCancelRequestAnimationFrame win' = Some g).
Proof.
  split.
  - intros w win f Hwin Hf Hnone. destruct (new_total w) as (w' & E).
    pose proof (new_window _ _ _ E) as Hw'. rewrite Hwin in Hw'. cbn in Hw'.
    exists w', (scheduledWindow win). split; [exact E|]. split; [exact Hw'|].
    unfold scheduledWindow. cbn [customRequestAnimationFrame
      customCancelRequestAnimationFrame set_customRequestAnimationFrame
      set_customCancelRequestAnimationFrame].
    rewrite (firstAvailable_fallback _ _ Hnone).
    unfold requestCandidates. rewrite Hf. done.
  - intros w win g Hwin Hnone Hg. destruct (new_total w) as (w' & E).
    pose proof (new_window _ _ _ E) as Hw'. rewrite Hwin in Hw'. cbn in Hw'.
    exists w', (scheduledWindow win). split; [exact E|]. split; [exact Hw'|].
    unfold scheduledWindow. cbn [customRequestAnimationFrame
      customCancelRequestAnimationFrame set_customRequestAnimationFrame
      set_customCancelRequestAnimationFrame].
    rewrite (firstAvailable_fallback _ _ Hnone).
    unfold cancelCandidates. rewrite Hg. done.
Qed.

Lemma scheduler_pair_is_chosen_independently_witness :
  (∃ w' win',
     Main.new (pristine (Some requestOnlyWindow)) = Ok (Main.Build false) w' ∧
     window w' = Some win' ∧
     customRequestAnimationFrame win' = Some (HostFn 1) ∧
     customCancelRequestAnimationFrame win' = Some ClearTimeout) ∧
  (∃ w' win',
     Main.new (pristine (Some cancelOnlyWindow)) = Ok (Main.Build false) w' ∧
     window w' = Some win' ∧
     customRequestAnimationFrame win' = Some (TimerFallback (1000 / 60)%Q) ∧
     customCancelRequestAnimationFrame win' = Some (HostFn 2)).
Proof.
  assert (Hnone : Forall (λ c : option JSFunction, c = None) [None; None; None; None; None])
    by (repeat constructor).
  split.
  - exact (proj1 scheduler_pair_is_chosen_independently
             (pristine (Some requestOnlyWindow)) requestOnlyWindow (HostFn 1)
             eq_refl eq_refl Hnone).
  - exact (proj2 scheduler_pair_is_chosen_independently
             (pristine (Some cancelOnlyWindow)) cancelOnlyWindow (HostFn 2)
             eq_refl Hnone eq_refl).
Defined.

(** ** What the constructor creates and registers *)






Lemma builtins_resolve sq tx im ln ci tr st po (d : gmap string loc) k c :
  (k, c) ∈ builtins →
  builtinDrawers sq tx im ln ci tr st po d !! k =
    Some match c with
         | LineDrawer => ln | CircleDrawer => ci | SquareDrawer => sq
         | TriangleDrawer => tr | StarDrawer => st | PolygonDrawer => po
         | TextDrawer => tx | ImageDrawer => im
         end.
Proof.
  pose proof (builtinDrawers_lookup sq tx im ln ci tr st po d) as Hd.
  cbv zeta in Hd. destruct_and? Hd.
  unfold builtins. rewrite !elem_of_cons, elem_of_nil.
  intros Hkc. destruct_or? Hkc; try done; by injection Hkc as -> ->.
Qed.

(** X6: after construction two built-in keys resolve to the same instance
    exactly if the source binds them to a drawer of the same class: the
    three alias pairs share an instance, and no other two built-in keys
    do. *)
Theorem builtin_keys_share_an_instance_iff_same_class
    (w w' : World) (this : Main.t) (k1 k2 : string) (c1 c2 : DrawerClass) :
  Main.new w = Ok this w' →
  (k1, c1) ∈ builtins →
  (k2, c2) ∈ builtins →
  (Plugins.resolve k1 w' = Plugins.resolve k2 w' ↔ c1 = c2).
Proof.
  destruct (new_spec w) as (sq & tx & im & ln & ci & tr & st & po & Hnd & _ & E).
  rewrite E. intros [= _ <-] H1 H2.
  rewrite !resolve_set_drawers.
  rewrite (builtins_resolve _ _ _ _ _ _ _ _ _ _ _ H1),
          (builtins_resolve _ _ _ _ _ _ _ _ _ _ _ H2).
  repeat (let Hx := fresh "Hx" in
          apply NoDup_cons in Hnd as [Hx Hnd];
          rewrite ?not_elem_of_cons in Hx; destruct_and? Hx).
  split.
  - intros [= Heq]. destruct c1, c2; congruence.
  - by intros ->.
Qed.

Lemma builtin_keys_share_an_instance_iff_same_class_witness :
  ∃ w', Main.new (pristine None) = Ok (Main.Build false) w' ∧
    Plugins.resolve "image" w' = Plugins.resolve "images" w' ∧
    Plugins.resolve "edge" w' ≠ Plugins.resolve "circle" w'.
Proof.
  destruct (new_total (pristine None)) as (w' & E).
  assert (Himage : ("image", ImageDrawer) ∈ builtins) by (unfold builtins; rewrite !elem_of_cons; tauto).
  assert (Himages : ("images", ImageDrawer) ∈ builtins) by (unfold builtins; rewrite !elem_of_cons; tauto).
  assert (Hedge : ("edge", SquareDrawer) ∈ builtins) by (unfold builtins; rewrite !elem_of_cons; tauto).
  assert (Hcircle : ("circle", CircleDrawer) ∈ builtins) by (unfold builtins; rewrite !elem_of_cons; tauto).
  exists w'. split; [exact E|]. split.
  - exact (proj2 (builtin_keys_share_an_instance_iff_same_class _ _ _ _ _ _ _
                    E Himage Himages) eq_refl).
  - intros Heq.
    pose proof (proj1 (builtin_keys_share_an_instance_iff_same_class _ _ _ _ _ _ _
                         E Hedge Hcircle) Heq) as Hc.
    discriminate Hc.
Defined.

Lemma seedShapeDrawers_set_window v w :
  Main.seedShapeDrawers (set_window v w) =
    match Main.seedShapeDrawers w with
    | Ok a w' => Ok a (set_window v w')
    | Fault e w' => Fault e (set_window v w')
    end.
Proof.
  destruct w as [win h d p pl dm ch].
  cbv [Main.seedShapeDrawers alloc Plugins.addShapeDrawer modify mbind M_bind
       mret M_ret heap drawers window presets plugins tsParticlesDom clickHandler
       set_heap set_drawers set_window].
  reflexivity.
Qed.

(** X10: seeding the built-in drawers does not depend on the window.  With
    or without a window, and whatever it offers, the constructor leaves the
    same heap and the same registry (and the same of everything else but
    [window]). *)
Theorem seeding_ignores_the_window (w : World) (v : option Window) :
  let there := world_of (Main.new (set_window v w)) in
  let here := world_of (Main.new w) in
  heap there = heap here ∧
  drawers there = drawers here ∧
  (∀ k, Plugins.resolve k there = Plugins.resolve k here) ∧
  there = set_window (scheduledWindow <$> v) here.
Proof.
  cbv zeta.
  assert (Hnew : ∀ u, world_of (Main.new u) =
            match Main.seedShapeDrawers u with
            | Ok _ u' => set_window (scheduledWindow <$> window u) u'
            | Fault _ u' => set_window (scheduledWindow <$> window u) u'
            end).
  { intros u. unfold Main.new.
    rewrite (bind_ok _ _ _ _ _ (installScheduler_spec u)).
    unfold mbind, M_bind. rewrite seedShapeDrawers_set_window.
    by destruct (Main.seedShapeDrawers u). }
  rewrite !Hnew, seedShapeDrawers_set_window.
  destruct (Main.seedShapeDrawers w) as [a u|e u];
    destruct w, u; unfold Plugins.resolve; world_simpl; done.
Qed.

(** ** Bundles made by [addShape] *)

(** X8: the function form of [addShape] makes a new bundle object on
    every call and reuses none.  Two calls, even with the same functions
    and the same name, leave two distinct objects with the same fields at
    locations that were free, and keep every object that existed. *)
Theorem addShape_function_form_makes_an_object_per_call
    (w : World) (k1 k2 : string) (f : JSFunction)
    (init afterEffect destroy : option JSFunction) :
  let bundle := IShapeDrawer.Build afterEffect f destroy init in
  ∃ (r1 r2 : loc) (w' : World),
    (Main.addShape k1 (DrawFunction f) init afterEffect destroy;;
     Main.addShape k2 (DrawFunction f) init afterEffect destroy) w = Ok tt w' ∧
    r1 ≠ r2 ∧
    heap w !! r1 = None ∧
    heap w !! r2 = None ∧
    heap w' = <[r2 := Literal bundle]> (<[r1 := Literal bundle]> (heap w)) ∧
    bundle_at r1 w' = Some bundle ∧
    bundle_at r2 w' = Some bundle ∧
    heap w ⊆ heap w' ∧
    size (heap w') = size (heap w) + 2.
Proof.
  intros bundle.
  destruct (addShape_function_spec k1 f init afterEffect destroy w) as (r1 & Hr1 & E1).
  rewrite (bind_ok _ _ _ _ _ E1).
  match type of E1 with
  | _ = Ok tt ?w1 =>
      destruct (addShape_function_spec k2 f init afterEffect destroy w1) as (r2 & Hr2 & E2)
  end.
  exists r1, r2. eexists. split; [exact E2|].
  fold bundle in Hr2 |- *.
  destruct w as [win h d p pl dm ch]. unfold bundle_at.
  world_simpl. world_simpl_in Hr1. world_simpl_in Hr2.
  apply lookup_insert_None in Hr2 as [Hr2 Hne].
  split; [congruence|]. split; [done|]. split; [done|]. split; [done|].
  split; [by rewrite lookup_insert_ne, lookup_insert_eq by done|].
  split; [by rewrite lookup_insert_eq|].
  split.
  - etrans; [apply (insert_subseteq h r1 (Literal bundle) Hr1)|].
    apply insert_subseteq. by rewrite lookup_insert_ne.
  - rewrite !map_size_insert_None; [lia|done|]. by rewrite lookup_insert_ne.
Qed.

(** ** Evaluating the module *)

(** X9: evaluating the module constructs the facade, which cannot fail,
    and then calls [dom()] once on the world the construction left.  The
    exported facade is not initialized, [pJSDom] is the very reference that
    call returned, and the evaluation throws exactly if that call
    throws. *)
Theorem module_evaluation_is_new_then_dom `{L : LoaderOps} (w : World) :
  ∃ w0 : World,
    Main.new w = Ok (Main.Build false) w0 ∧
    (∀ ex w1, moduleInit w = Ok ex w1 ↔
       tsParticles ex = Main.Build false ∧ Loader_dom w0 = Ok (pJSDom ex) w1) ∧
    (∀ e w1, moduleInit w = Fault e w1 ↔ Loader_dom w0 = Fault e w1).
Proof.
  destruct (new_total w) as (w0 & E). exists w0. split; [exact E|].
  unfold moduleInit. rewrite (bind_ok _ _ _ _ _ E). unfold Main.dom.
  unfold mbind, M_bind. destruct (Loader_dom w0) as [r w2|e2 w2].
  - split.
    + intros [t r'] w1. cbn [tsParticles pJSDom]. split.
      * by intros [= <- <- <-].
      * by intros [-> [= <- <-]].
    + intros e w1. split; intros [=].
  - split.
    + intros ex w1. split; [intros [=]|intros [_ [=]]].
    + intros e w1. split; by intros [= <- <-].
Qed.

Lemma module_evaluation_is_new_then_dom_witness :
  (∃ w0 : World,
     Main.new (pristine None) = Ok (Main.Build false) w0 ∧
     moduleInit (H := throwingLoader) (pristine None) = Fault (HostError 5) w0) ∧
  (∃ ex w0 w1,
     Main.new (pristine None) = Ok (Main.Build false) w0 ∧
     moduleInit (H := demoLoader) (pristine None) = Ok ex w1 ∧
     tsParticles ex = Main.Build false ∧
     Loader_dom (LoaderOps := demoLoader) w0 = Ok (pJSDom ex) w1).
Proof.
  split.
  - destruct (module_evaluation_is_new_then_dom (L := throwingLoader) (pristine None))
      as (w0 & E & _ & Hfault).
    exists w0. split; [exact E|].
    exact (proj2 (Hfault (HostError 5) w0) eq_refl).
  - destruct (module_evaluation_is_new_then_dom (L := demoLoader) (pristine None))
      as (w0 & E & Hok & _).
    destruct (moduleInit_spec demoFetch demoParse demoConstruct demoPick demoDestroyed
                (pristine None)) as (w0' & r & _ & _ & _ & _ & Einit).
    destruct (proj1 (Hok _ _) Einit) as [Hthis Hdom].
    eexists _, w0, _. split; [exact E|]. split; [exact Einit|].
    split; [exact Hthis|exact Hdom].
Defined.
